(** * saa-downloader: the identifier sequencer, the scan fetcher and the
      batch orchestrator of [saa-downloader.py], embedded and verified.

    Strings are [string]s whose characters stand for the code points
    U+0000..U+00FF; Python integers are [Z]; the file system and the
    console are an explicit [World] threaded through a small state and
    exception monad; the archive server is a function of the history of
    events. *)

From Stdlib Require Import ZArith Ascii String DecimalString DecimalPos.
From stdpp Require Import gmap strings list fin_maps.

(** ** Python exceptions and fallible results *)

Inductive Exn : Type :=
| ValueError          (* int() on a non-number, split() on an empty separator *)
| IndexError          (* list index out of range *)
| FileNotFoundError   (* os.makedirs('') *)
| FileExistsError     (* os.makedirs on a path that is a regular file *)
| IsADirectoryError   (* open(path, 'wb') on a directory *)
| DescriptorError     (* lxml: XMLSyntaxError, or find(..) gave None, or no 'url' *)
| RecursionError.     (* maximum recursion depth exceeded *)

Inductive result (A : Type) : Type :=
| Ok (a : A)
| Err (e : Exn).
Arguments Ok {A} a.
Arguments Err {A} e.

Definition rbind {A B} (r : result A) (k : A → result B) : result B :=
  match r with
  | Ok a => k a
  | Err e => Err e
  end.

(** ** Python string primitives used by the script *)

Module PyStr.

(** [s.startswith(p)] *)
Fixpoint startswith (p s : string) : bool :=
  match p, s with
  | EmptyString, _ => true
  | String a p', String b s' => if Ascii.eqb a b then startswith p' s' else false
  | String _ _, EmptyString => false
  end.

(** [p in s], the case-sensitive substring test *)
Fixpoint contains (p s : string) : bool :=
  if startswith p s then true
  else match s with
       | EmptyString => false
       | String _ s' => contains p s'
       end.

(** [os.path.commonprefix([a, b])]: the library takes the smaller and
    the larger of the list and cuts the smaller at the first position
    where the two differ, which for two strings is their longest common
    leading substring, character by character. *)
Fixpoint commonprefix (a b : string) : string :=
  match a, b with
  | String x a', String y b' =>
      if Ascii.eqb x y then String x (commonprefix a' b') else EmptyString
  | _, _ => EmptyString
  end.

(** The scan of [s.split(sep)] for a non-empty [sep]: [skip] counts the
    characters of a separator occurrence still to be dropped; the head
    of the result is the piece being built. *)
Fixpoint split_scan (sep : string) (skip : nat) (s : string) : list string :=
  match s with
  | EmptyString => [EmptyString]
  | String c s' =>
      match skip with
      | S k => split_scan sep k s'
      | O =>
          if startswith sep s
          then EmptyString :: split_scan sep (String.length sep - 1) s'
          else match split_scan sep 0 s' with
               | piece :: rest => String c piece :: rest
               | [] => [String c EmptyString]
               end
      end
  end.

(** [s.split(sep)]: ValueError("empty separator") when [sep] is empty. *)
Definition split (s sep : string) : result (list string) :=
  match sep with
  | EmptyString => Err ValueError
  | _ => Ok (split_scan sep 0 s)
  end.

(** [l[i]] *)
Definition index {A} (l : list A) (i : nat) : result A :=
  match l !! i with
  | Some x => Ok x
  | None => Err IndexError
  end.

(** Characters that [int()] skips around the number: TAB LF VT FF CR
    and SPACE, and of the rest of the Latin-1 range NEL and NBSP. *)
Definition isspace (c : ascii) : bool :=
  let n := nat_of_ascii c in
  ((9 <=? n)%nat && (n <=? 13)%nat) || (n =? 32)%nat
  || (n =? 133)%nat || (n =? 160)%nat.

Definition digit_val (c : ascii) : option Z :=
  let n := nat_of_ascii c in
  if (48 <=? n)%nat && (n <=? 57)%nat then Some (Z.of_nat (n - 48)) else None.

Fixpoint lstrip (s : string) : string :=
  match s with
  | String c s' => if isspace c then lstrip s' else s
  | EmptyString => EmptyString
  end.

Fixpoint all_space (s : string) : bool :=
  match s with
  | String c s' => isspace c && all_space s'
  | EmptyString => true
  end.

(** What the digit loop of [int()] saw last. *)
Inductive Last : Type := AtStart | AfterDigit | AfterUnderscore.

(** The digits of a base-10 literal: a single underscore is allowed
    between two digits only; reading stops at the first other character,
    which must come right after a digit. *)
Fixpoint int_digits (acc : Z) (last : Last) (s : string) : option (Z * string) :=
  match s with
  | String c s' =>
      match digit_val c with
      | Some d => int_digits (10 * acc + d)%Z AfterDigit s'
      | None =>
          if Ascii.eqb c "_"%char
          then match last with
               | AfterDigit => int_digits acc AfterUnderscore s'
               | _ => None
               end
          else match last with
               | AfterDigit => Some (acc, s)
               | _ => None
               end
      end
  | EmptyString =>
      match last with
      | AfterDigit => Some (acc, EmptyString)
      | _ => None
      end
  end.

Definition int_signed (s : string) : option (Z * string) :=
  match s with
  | String "-"%char s' =>
      match int_digits 0 AtStart s' with
      | Some (n, rest) => Some ((- n)%Z, rest)
      | None => None
      end
  | String "+"%char s' => int_digits 0 AtStart s'
  | _ => int_digits 0 AtStart s
  end.

(** [int(s)] for a string: optional white space, optional sign, decimal
    digits (leading zeros accepted), optional white space.  The
    interpreter's cap on the number of digits is not modelled. *)
Definition int (s : string) : result Z :=
  match int_signed (lstrip s) with
  | Some (n, rest) => if all_space rest then Ok n else Err ValueError
  | None => Err ValueError
  end.

(** [str(n)] *)
Definition str (n : Z) : string := NilZero.string_of_int (Z.to_int n).

Fixpoint zeros (n : nat) : string :=
  match n with
  | O => EmptyString
  | S n' => String "0"%char (zeros n')
  end.

(** [s.zfill(width)]: zeros go after a leading sign. *)
Definition zfill (s : string) (width : nat) : string :=
  if (width <=? String.length s)%nat then s
  else
    let fill := zeros (width - String.length s) in
    match s with
    | String c s' =>
        if Ascii.eqb c "+"%char || Ascii.eqb c "-"%char
        then String c (fill +:+ s')
        else fill +:+ s
    | EmptyString => fill
    end.

(** [range(a, b)] as a list *)
Definition range (a b : Z) : list Z :=
  (λ k : nat, (a + Z.of_nat k)%Z) <$> seq 0 (Z.to_nat (b - a)%Z).

End PyStr.

(** ** Identifier sequencer: [makeFilenames] *)

(** [int(s.split(prefix)[1])] *)
Definition suffix_value (s prefix : string) : result Z :=
  rbind (PyStr.split s prefix) (λ pieces,
  rbind (PyStr.index pieces 1) PyStr.int).

Definition makeFilenames (start end_ : string) : result (list string) :=
  let prefix := PyStr.commonprefix start end_ in
  rbind (suffix_value start prefix) (λ n_start,
  rbind (suffix_value end_ prefix) (λ n_end,
  let zpadlength := String.length (PyStr.str n_end) in
  Ok ((λ i, prefix +:+ PyStr.zfill (PyStr.str i) zpadlength)
        <$> PyStr.range n_start (n_end + 1)%Z))).

(** ** The world the fetcher acts on *)

(** Which of the three call sites of [requests.get] an HTTP request comes
    from.  Descriptor and binary requests carry [HEADERS], the preparation
    request carries none. *)
Inductive ReqKind : Type := Descriptor | Preparation | Binary.

Inductive Event : Type :=
| EPrint (line : string)
| EMakedirs (path : string)
| EGet (kind : ReqKind) (url : string)
| ESleep (seconds : nat)
| EWrite (path content : string).

#[global] Instance ReqKind_eq_dec : EqDecision ReqKind.
Proof. solve_decision. Defined.
#[global] Instance Event_eq_dec : EqDecision Event.
Proof. solve_decision. Defined.

(** Regular files with their content, directories, and the chronological
    log of what the program did.  Paths are compared as written and form
    a flat name space: a path can be made a directory unless it is empty
    or a regular file, and a file can be written unless the path is a
    directory; parents, permissions and disk space are not modelled. *)
Record World : Type := mkWorld {
  files : gmap string string;
  dirs : gset string;
  trace : list Event
}.

Definition log (e : Event) (w : World) : World :=
  mkWorld (files w) (dirs w) (trace w ++ [e]).

(** ** A state and exception monad over the world *)

Inductive Res (A : Type) : Type :=
| Ret (a : A)        (* normal return *)
| Raise (e : Exn)    (* an exception escapes *)
| OutOfFuel.         (* the bound on resumptions was reached, still running *)
Arguments Ret {A} a.
Arguments Raise {A} e.
Arguments OutOfFuel {A}.

Definition M (A : Type) : Type := World → Res A * World.

Definition ret {A} (a : A) : M A := λ w, (Ret a, w).
Definition raise {A} (e : Exn) : M A := λ w, (Raise e, w).
Definition timeout {A} : M A := λ w, (OutOfFuel, w).

Definition bind {A B} (m : M A) (k : A → M B) : M B :=
  λ w, match m w with
       | (Ret a, w') => k a w'
       | (Raise e, w') => (Raise e, w')
       | (OutOfFuel, w') => (OutOfFuel, w')
       end.

Notation "x <~ m ;; k" := (bind m (λ x, k))
  (at level 100, m at next level, right associativity).
Notation "m ;; k" := (bind m (λ _, k))
  (at level 100, right associativity).

Fixpoint mapM {A B} (f : A → M B) (l : list A) : M (list B) :=
  match l with
  | [] => ret []
  | x :: l' => y <~ f x ;; ys <~ mapM f l' ;; ret (y :: ys)
  end.

(** ** Operating-system primitives *)

Module Os.

Fixpoint endswith_sep (s : string) : bool :=
  match s with
  | EmptyString => false
  | String c EmptyString => Ascii.eqb c "/"%char
  | String _ s' => endswith_sep s'
  end.

(** [os.path.join(a, b)] of posixpath *)
Definition path_join (a b : string) : string :=
  if PyStr.startswith "/" b then b
  else match a with
       | EmptyString => b
       | _ => if endswith_sep a then a +:+ b else a +:+ "/" +:+ b
       end.

Definition is_file (path : string) (w : World) : bool :=
  bool_decide (is_Some (files w !! path)).

Definition is_dir (path : string) (w : World) : bool :=
  bool_decide (path ∈ dirs w).

Definition present (path : string) (w : World) : bool :=
  is_file path w || is_dir path w.

(** [os.path.exists(path)] *)
Definition path_exists (path : string) : M bool :=
  λ w, (Ret (present path w), w).

(** [os.makedirs(path, exist_ok=True)] *)
Definition makedirs (path : string) : M unit :=
  λ w, let w' := log (EMakedirs path) w in
       match path with
       | EmptyString => (Raise FileNotFoundError, w')
       | _ =>
           if is_file path w then (Raise FileExistsError, w')
           else (Ret tt, mkWorld (files w') ({[ path ]} ∪ dirs w') (trace w'))
       end.

(** [with open(path, 'wb') as f: f.write(content)] *)
Definition write_file (path content : string) : M unit :=
  λ w, let w' := log (EWrite path content) w in
       if is_dir path w then (Raise IsADirectoryError, w')
       else (Ret tt, mkWorld (<[ path := content ]> (files w')) (dirs w') (trace w')).

(** [print(...)]: the arguments joined by single spaces *)
Definition print (line : string) : M unit :=
  λ w, (Ret tt, log (EPrint line) w).

(** [await asyncio.sleep(seconds)] *)
Definition sleep (seconds : nat) : M unit :=
  λ w, (Ret tt, log (ESleep seconds) w).

End Os.

(** ** Scan fetcher and batch orchestrator *)

Definition BASEURL : string := "https://archief.amsterdam".
Definition DOWNLOADURL : string := "https://archief.amsterdam/api/download_info/0/".
Definition PREPAREURL : string := "https://archief.amsterdam/api/queue_download/0/".

Definition descriptor_url (filename : string) : string :=
  DOWNLOADURL +:+ filename +:+ ".xml".
Definition prepare_url (filename : string) : string :=
  PREPAREURL +:+ filename +:+ ".xml".

(** [os.path.join(destination, filename + '.pdf')] *)
Definition pdf_path (destination filename : string) : string :=
  Os.path_join destination (filename +:+ ".pdf").

(** The three ways [downloadScan] comes to an end.  The Python coroutine
    returns [None] on each of them; the tag names the path taken:
    [Skipped] is the [return] after 'Already downloaded:', [Unresolvable]
    the [return] after 'Cannot resolve:', [Downloaded] the end of the
    branch that writes the file. *)
Inductive Outcome : Type := Downloaded | Skipped | Unresolvable.

(** One pass through the body of [downloadScan] ends either for good or,
    after the ten-second sleep, in the recursive call. *)
Inductive Step : Type :=
| Finished (o : Outcome)
| Retry.

Module Saa.
Section Fetcher.

(** The archive: the body of the response to a request, given all that
    happened before it.  [requests.get] is taken to deliver a response. *)
Variable respond : list Event → ReqKind → string → string.

(** The lxml part of the Ready branch,
    [etree.fromstring(body).find("download[@label='highres']").find('part').attrib['url']],
    [None] where one of these steps raises. *)
Variable highresPart : string → option string.

(** [requests.get(url, ...)], giving the body *)
Definition requests_get (kind : ReqKind) (url : string) : M string :=
  λ w, (Ret (respond (trace w) kind url), log (EGet kind url) w).

Definition parse_descriptor (body : string) : M string :=
  match highresPart body with
  | Some part => ret part
  | None => raise DescriptorError
  end.

(** The body of [downloadScan] up to the recursive call. *)
Definition attempt (filename destination : string) (skipIfExist : bool) : M Step :=
  present <~ (if skipIfExist
              then Os.path_exists (pdf_path destination filename)
              else ret false) ;;
  if present then
    Os.print ("Already downloaded: " +:+ filename) ;;
    ret (Finished Skipped)
  else
    Os.print ("Downloading " +:+ filename) ;;
    Os.makedirs destination ;;
    data <~ requests_get Descriptor (descriptor_url filename) ;;
    if PyStr.contains "unavailable" data then
      requests_get Preparation (prepare_url filename) ;;
      Os.print (filename +:+ " Unavailable now, preparing and trying again in 10 seconds") ;;
      Os.sleep 10 ;;
      ret Retry
    else if PyStr.contains "invalid item" data then
      Os.print ("Cannot resolve: " +:+ filename) ;;
      ret (Finished Unresolvable)
    else
      part <~ parse_descriptor data ;;
      content <~ requests_get Binary (BASEURL +:+ part) ;;
      Os.write_file (pdf_path destination filename) content ;;
      ret (Finished Downloaded).

(** [downloadScan(filename, destination, skipIfExist)].  The recursive
    call passes [filename] and [destination] only, so it runs with the
    default [skipIfExist=True].  [fuel] bounds the number of passes that
    are followed; the depth of the interpreter's stack is the matter of
    [downloadScanNested] below. *)
Fixpoint downloadScan (fuel : nat) (filename destination : string)
    (skipIfExist : bool) : M Outcome :=
  match fuel with
  | O => timeout
  | S fuel' =>
      st <~ attempt filename destination skipIfExist ;;
      match st with
      | Finished o => ret o
      | Retry => downloadScan fuel' filename destination true
      end
  end.

(** [downloadScan] on the interpreter's stack.  The retry is a call
    nested in the pass that makes it, so every Preparing cycle takes
    stack that is given back only when the whole fetch ends.  [room] is
    the number of passes the stack has room for, and [overflow] is the
    call for which it has none: it raises RecursionError, from the call
    itself or from a library call inside it. *)
Fixpoint downloadScanNested
    (overflow : string → string → bool → M Outcome) (room : nat)
    (filename destination : string) (skipIfExist : bool) : M Outcome :=
  match room with
  | O => overflow filename destination skipIfExist
  | S room' =>
      st <~ attempt filename destination skipIfExist ;;
      match st with
      | Finished o => ret o
      | Retry => downloadScanNested overflow room' filename destination true
      end
  end.

(** A coroutine handed to [asyncio.gather]: either suspended, about to
    run [downloadScan(filename, destination, skipIfExist)], or done. *)
Inductive Task : Type :=
| Waiting (filename destination : string) (skipIfExist : bool)
| Complete (o : Outcome).

(** The event loop resumes a task, which runs without interruption
    until it ends or reaches [await asyncio.sleep(10)]. *)
Definition resume (t : Task) : M Task :=
  match t with
  | Complete o => ret (Complete o)
  | Waiting f d skip =>
      st <~ attempt f d skip ;;
      match st with
      | Finished o => ret (Complete o)
      | Retry => ret (Waiting f d true)
      end
  end.

Fixpoint results (ts : list Task) : option (list Outcome) :=
  match ts with
  | [] => Some []
  | Complete o :: ts' =>
      match results ts' with
      | Some os => Some (o :: os)
      | None => None
      end
  | Waiting _ _ _ :: _ => None
  end.

(** [await asyncio.gather] over the coroutines: the tasks start in the order
    given; the sleepers all wait ten seconds, so they wake in the order
    in which they went to sleep.  [fuel] bounds the number of rounds.
    When a task raises, the exception reaches the caller; the batch is
    followed up to the raise only, not through the passes that the event
    loop may still give to other tasks before the caller is resumed. *)
Fixpoint gather (fuel : nat) (ts : list Task) : M (list Outcome) :=
  match results ts with
  | Some os => ret os
  | None =>
      match fuel with
      | O => timeout
      | S fuel' => ts' <~ mapM resume ts ;; gather fuel' ts'
      end
  end.

(** [fetchScans(startscan, endscan, destination)].  The coroutine
    returns [None]; the value here is the list that the awaited
    [asyncio.gather] delivers, one entry per file name. *)
Definition fetchScans (fuel : nat) (startscan endscan destination : string)
    : M (list Outcome) :=
  match makeFilenames startscan endscan with
  | Err e => raise e
  | Ok filenames =>
      gather fuel ((λ f, Waiting f destination true) <$> filenames)
  end.


End Fetcher.
End Saa.

Import Saa.

(** ** Listing reader: [fetchScansFromFile] *)

(** String operations of the listing reader. *)
Module PyLine.

(** [s.replace(c, '')] for a one-character [c] *)
Fixpoint remove (c : ascii) (s : string) : string :=
  match s with
  | EmptyString => EmptyString
  | String x s' => if Ascii.eqb x c then remove c s' else String x (remove c s')
  end.

Fixpoint drop (n : nat) (s : string) : string :=
  match n, s with
  | S n', String _ s' => drop n' s'
  | _, _ => s
  end.

Fixpoint take (n : nat) (s : string) : string :=
  match n, s with
  | S n', String x s' => String x (take n' s')
  | _, _ => EmptyString
  end.

(** [s.endswith(suffix)] *)
Definition endswith (suffix s : string) : bool :=
  if (String.length suffix <=? String.length s)%nat
  then PyStr.startswith suffix (drop (String.length s - String.length suffix) s)
  else false.

(** [s[:-k]] for a positive [k] *)
Definition slice_to_minus (k : nat) (s : string) : string :=
  take (String.length s - k) s.

End PyLine.

(** Besides the exceptions of the fetcher, the reader can meet its local
    [prefix] before any line has bound it. *)
Inductive ListingExn : Type :=
| Py (e : Exn)
| UnboundLocalError.

Inductive lresult (A : Type) : Type :=
| LOk (a : A)
| LErr (e : ListingExn).
Arguments LOk {A} a.
Arguments LErr {A} e.

Definition QUOTE : ascii := "'"%char.
Definition MARKER : string := String "0" (String "0" (String "1" (String QUOTE EmptyString))).

(** The first inner loop: [prefix] becomes [item[:-3]] for the first
    item that ends with the marker and keeps its value if there is none. *)
Fixpoint find_prefix (items : list string) (prefix : option string) : option string :=
  match items with
  | [] => prefix
  | item :: rest =>
      if PyLine.endswith MARKER item
      then Some (PyLine.slice_to_minus 3 item)
      else find_prefix rest prefix
  end.

(** The second inner loop, with [prefix] bound. *)
Fixpoint select (index prefix : string) (items : list string) : list (string * string) :=
  match items with
  | [] => []
  | item :: rest =>
      if PyStr.startswith prefix item
      then (index, PyLine.remove QUOTE item) :: select index prefix rest
      else select index prefix rest
  end.

(** The body of the loop over the lines: the value of [prefix] on entry
    ([None] while unbound), the line; the value of [prefix] on exit and
    the pairs appended to [all_scans]. *)
Definition scan_line (prefix : option string) (line : string)
    : lresult (option string * list (string * string)) :=
  match PyStr.split line "," with
  | Err e => LErr (Py e)
  | Ok items =>
      match PyStr.index items 1 with
      | Err e => LErr (Py e)
      | Ok second =>
          let index := PyLine.remove QUOTE second in
          match find_prefix items prefix with
          | None => LErr UnboundLocalError
          | Some p => LOk (Some p, select index p items)
          end
      end
  end.

Fixpoint scan_lines (prefix : option string) (lines : list string)
    : lresult (list (string * string)) :=
  match lines with
  | [] => LOk []
  | line :: rest =>
      match scan_line prefix line with
      | LErr e => LErr e
      | LOk (prefix', found) =>
          match scan_lines prefix' rest with
          | LErr e => LErr e
          | LOk more => LOk (found ++ more)
          end
      end
  end.

(** [all_scans] once the loop over the lines is through. *)
Definition all_scans (lines : list string) : lresult (list (string * string)) :=
  scan_lines None lines.

(** How [fetchScansFromFile] ends: in the reading loop, or with what the
    awaited [asyncio.gather] gives. *)
Inductive FileRes : Type :=
| Unparsed (e : ListingExn)
| Gathered (r : Res (list Outcome)).

Section Listing.

Variable respond : list Event → ReqKind → string → string.
Variable highresPart : string → option string.

(** [fetchScansFromFile(filepath)], from the list [lines] that
    [infile.readlines()] gives; opening and decoding the file are not
    modelled. *)
Definition fetchScansFromFile (fuel : nat) (lines : list string)
    : World → FileRes * World :=
  λ w, match all_scans lines with
       | LErr e => (Unparsed e, w)
       | LOk scans =>
           let '(r, w') :=
             gather respond highresPart fuel
               ((λ '(i, scan), Waiting scan (i +:+ "/") true) <$> scans) w in
           (Gathered r, w')
       end.

End Listing.

(** ** Vocabulary of the statements *)

(** The HTTP requests of a log, in order. *)
Fixpoint requests (tr : list Event) : list (ReqKind * string) :=
  match tr with
  | EGet k url :: tr' => (k, url) :: requests tr'
  | _ :: tr' => requests tr'
  | [] => []
  end.

Definition binary_fetches (tr : list Event) : list string :=
  omap (λ e, match e with EGet Binary url => Some url | _ => None end) tr.

(** The world once a pass has announced itself and made the directory. *)
Definition entered (filename destination : string) (w : World) : World :=
  let w' := log (EMakedirs destination) (log (EPrint ("Downloading " +:+ filename)) w) in
  mkWorld (files w') ({[ destination ]} ∪ dirs w') (trace w').

(** The world after the descriptor request of a pass. *)
Definition asked (filename destination : string) (w : World) : World :=
  log (EGet Descriptor (descriptor_url filename)) (entered filename destination w).

(** The body of the descriptor response of a pass that starts in [w]. *)
Definition descriptor_body (respond : list Event → ReqKind → string → string)
    (filename destination : string) (w : World) : string :=
  respond (trace (entered filename destination w)) Descriptor (descriptor_url filename).

(** What one Preparing pass adds to the log. *)
Definition prep_cycle (filename destination : string) : list Event :=
  [ EPrint ("Downloading " +:+ filename);
    EMakedirs destination;
    EGet Descriptor (descriptor_url filename);
    EGet Preparation (prepare_url filename);
    EPrint (filename +:+ " Unavailable now, preparing and trying again in 10 seconds");
    ESleep 10 ].

(** The world after one Preparing pass. *)
Definition after_cycle (filename destination : string) (w : World) : World :=
  log (ESleep 10)
    (log (EPrint (filename +:+ " Unavailable now, preparing and trying again in 10 seconds"))
       (log (EGet Preparation (prepare_url filename)) (asked filename destination w))).

(** The destination can be made a directory: the path is not empty and
    is not a regular file. *)
Definition dir_creatable (destination : string) (w : World) : Prop :=
  destination ≠ EmptyString ∧ Os.is_file destination w = false.

(** The pass goes beyond the existence check. *)
Definition not_skipped (filename destination : string) (skipIfExist : bool)
    (w : World) : Prop :=
  skipIfExist = false ∨ Os.present (pdf_path destination filename) w = false.

(** The file name is one path component that any file system takes
    once [.pdf] is added: no slash and no NUL in it, and at most 125
    characters, which are at most 250 bytes in UTF-8.  The artifact then
    lies directly in the destination directory. *)
Definition plain_name (filename : string) : Prop :=
  PyStr.contains "/" filename = false
  ∧ PyStr.contains (String "000" EmptyString) filename = false
  ∧ (String.length filename ≤ 125)%nat.

(** The call that finds no room on the stack ends with RecursionError,
    whatever it did before. *)
Definition overflows (overflow : string → string → bool → M Outcome) : Prop :=
  ∀ f d skip w, (overflow f d skip w).1 = Raise RecursionError.


(** ** Reading a log *)

Definition sleeps (tr : list Event) : list nat :=
  omap (λ e, match e with ESleep n => Some n | _ => None end) tr.

Definition preparations (tr : list Event) : list string :=
  omap (λ e, match e with EGet Preparation url => Some url | _ => None end) tr.

Definition descriptor_requests (tr : list Event) : list string :=
  omap (λ e, match e with EGet Descriptor url => Some url | _ => None end) tr.

(** What the last pass of a fetch may add to the log: no sleep, no
    preparation request, at most one descriptor request and at most one
    binary fetch. *)
Definition final_segment (evs : list Event) : Prop :=
  sleeps evs = [] ∧ preparations evs = []
  ∧ (length (descriptor_requests evs) ≤ 1)%nat
  ∧ (length (binary_fetches evs) ≤ 1)%nat.

(** The artifact paths of the tasks of a batch that are not finished. *)
Definition artifacts (ts : list Task) : list string :=
  omap (λ t, match t with
             | Waiting f d _ => Some (pdf_path d f)
             | Complete _ => None
             end) ts.

(** ** Archives and worlds of the examples *)

Module Examples.

(** Nothing on disk, nothing done yet. *)
Definition fresh : World := mkWorld ∅ ∅ [].

(** ["30/K1.pdf"] is there from an earlier run. *)
Definition with_K1 : World := mkWorld {[ "30/K1.pdf" := "old scan" ]} ∅ [].

Definition ready_body : string :=
  "<downloads><download label='highres'><part url='/dl/scan.pdf'/></download></downloads>".

(** A stand-in for the lxml steps, enough for the bodies used here. *)
Definition highres (body : string) : option string :=
  if PyStr.contains "label='highres'" body then Some "/dl/scan.pdf" else None.

(** Every item is prepared. *)
Definition archive_ready (tr : list Event) (k : ReqKind) (url : string) : string :=
  match k with
  | Descriptor => ready_body
  | Preparation => "queued"
  | Binary => "%PDF-1.4"
  end.

(** No item is ever prepared. *)
Definition archive_unavailable (tr : list Event) (k : ReqKind) (url : string) : string :=
  match k with
  | Descriptor => "<error>unavailable</error>"
  | Preparation => "queued"
  | Binary => "%PDF-1.4"
  end.

(** K2 is not an item of the archive, the others are prepared. *)
Definition archive_K2_invalid (tr : list Event) (k : ReqKind) (url : string) : string :=
  match k with
  | Descriptor =>
      if bool_decide (url = descriptor_url "K2")
      then "<error>invalid item</error>" else ready_body
  | Preparation => "queued"
  | Binary => "%PDF-1.4"
  end.

(** The item is prepared once some client has waited ten seconds. *)
Definition archive_ready_after_wait (tr : list Event) (k : ReqKind) (url : string) : string :=
  match k with
  | Descriptor =>
      if bool_decide (ESleep 10 ∈ tr) then ready_body
      else "<error>unavailable</error>"
  | Preparation => "queued"
  | Binary => "%PDF-1.4"
  end.

(** Until the client has waited once, the descriptor response carries
    both markers; afterwards the item is prepared. *)
Definition archive_both_markers (tr : list Event) (k : ReqKind) (url : string) : string :=
  match k with
  | Descriptor =>
      if bool_decide (ESleep 10 ∈ tr) then ready_body
      else "<error>invalid item: unavailable</error>"
  | Preparation => "queued"
  | Binary => "%PDF-1.4"
  end.


(** A stack with no room left: the call raises before it does anything. *)
Definition stack_full : string → string → bool → M Outcome :=
  λ _ _ _, raise RecursionError.

End Examples.

(** ** Lines of the listing examples *)

Module ListingExamples.

(** An inventory line as [readlines] gives it: group 81, scans 1, 2, 10
    and 100 of KLAC00161. *)
Definition line_81 : string :=
  "['76','81','KLAC00161000001','KLAC00161000002','KLAC00161000010','KLAC00161000100']" +:+ String "010" EmptyString.

(** A line that names no scan ending in 001. *)
Definition line_82 : string :=
  "['77','82','KLAC00161000055','KLAC00170000002']" +:+ String "010" EmptyString.

(** The empty last line of a file that ends with two line feeds. *)
Definition blank : string := String "010" EmptyString.

(** The archive answers every descriptor request with an error page. *)
Definition archive_error_page (tr : list Event) (k : ReqKind) (url : string) : string :=
  match k with
  | Descriptor => "<html><body>Service Temporarily Down</body></html>"
  | Preparation => "queued"
  | Binary => "%PDF-1.4"
  end.

End ListingExamples.

(** * Properties *)

(** ** Strings *)

Module PyStrFacts.
Import PyStr.

Lemma length_append (a b : string) :
  String.length (a +:+ b) = (String.length a + String.length b)%nat.
Proof. induction a as [|c a IH]; simpl; [done | by rewrite IH]. Qed.

Lemma length_zeros (n : nat) : String.length (zeros n) = n.
Proof. induction n as [|n IH]; simpl; [done | by rewrite IH]. Qed.

Lemma startswith_refl (s : string) : startswith s s = true.
Proof.
  induction s as [|c s IH]; simpl; [done |].
  by rewrite Ascii.eqb_refl.
Qed.

Lemma startswith_append (p s : string) : startswith p (p +:+ s) = true.
Proof.
  induction p as [|c p IH]; simpl; [done |].
  by rewrite Ascii.eqb_refl.
Qed.

Lemma commonprefix_diag (s : string) : commonprefix s s = s.
Proof.
  induction s as [|c s IH]; simpl; [done |].
  by rewrite Ascii.eqb_refl, IH.
Qed.

(** Dropping a whole occurrence of the separator. *)
Lemma split_scan_skip (sep p s : string) :
  split_scan sep (String.length p) (p +:+ s) = split_scan sep 0 s.
Proof. induction p as [|c p IH]; simpl; [by destruct s | done]. Qed.

Lemma split_scan_skip_all (sep s : string) :
  split_scan sep (String.length s) s = [EmptyString].
Proof. induction s as [|c s IH]; simpl; done. Qed.

(** A text in which the separator does not occur is one piece. *)
Lemma split_scan_absent (sep s : string) :
  contains sep s = false → split_scan sep 0 s = [s].
Proof.
  induction s as [|c s IH]; simpl; [done |].
  destruct sep as [|a sep]; [done |].
  simpl. destruct (Ascii.eqb a c && startswith sep s) eqn:E.
  - destruct (Ascii.eqb a c); [| done].
    simpl in E. by rewrite E.
  - intros H.
    assert (Hs : (if Ascii.eqb a c then startswith sep s else false) = false).
    { destruct (Ascii.eqb a c); [exact E | done]. }
    rewrite Hs in H |- *. by rewrite (IH H).
Qed.

(** [(p + s).split(p)] when [p] does not occur again in [s]. *)
Lemma split_prefixed (p s : string) :
  p ≠ EmptyString → contains p s = false →
  split (p +:+ s) p = Ok [EmptyString; s].
Proof.
  intros Hp Hs. destruct p as [|c p]; [done |].
  unfold split. f_equal.
  change ((String c p) +:+ s) with (String c (p +:+ s)).
  cbn [split_scan].
  change (String c (p +:+ s)) with ((String c p) +:+ s).
  rewrite startswith_append.
  replace (String.length (String c p) - 1)%nat with (String.length p)
    by (simpl; lia).
  by rewrite split_scan_skip, split_scan_absent.
Qed.

(** [s.split(s)] for a non-empty [s] is ['', '']. *)
Lemma split_self (s : string) :
  s ≠ EmptyString → split s s = Ok [EmptyString; EmptyString].
Proof.
  intros Hs. destruct s as [|c s]; [done |].
  unfold split. f_equal. cbn [split_scan].
  rewrite startswith_refl.
  replace (String.length (String c s) - 1)%nat with (String.length s)
    by (simpl; lia).
  by rewrite split_scan_skip_all.
Qed.

Lemma zfill_length (s : string) (width : nat) :
  String.length (zfill s width) = (String.length s `max` width)%nat.
Proof.
  unfold zfill. destruct (width <=? String.length s)%nat eqn:E.
  - apply Nat.leb_le in E. lia.
  - apply Nat.leb_gt in E.
    destruct s as [|c s]; simpl in *.
    + rewrite length_zeros. lia.
    + destruct (Ascii.eqb c "+" || Ascii.eqb c "-"); simpl;
        rewrite length_append, length_zeros; simpl; lia.
Qed.

Lemma range_empty (a b : Z) : (b ≤ a)%Z → range a b = [].
Proof. intros H. unfold range. by replace (Z.to_nat (b - a)) with 0%nat by lia. Qed.

Lemma range_length (a b : Z) : length (range a b) = Z.to_nat (b - a).
Proof. unfold range. by rewrite length_fmap, length_seq. Qed.

Lemma range_lookup (a b : Z) (k : nat) (i : Z) :
  range a b !! k = Some i → i = (a + Z.of_nat k)%Z ∧ (a ≤ i < b)%Z.
Proof.
  unfold range. rewrite list_lookup_fmap.
  destruct (seq 0 (Z.to_nat (b - a)) !! k) as [j|] eqn:E; [| done].
  apply lookup_seq in E as [-> Hk]. simpl. intros [= <-]. lia.
Qed.

End PyStrFacts.

(** ** Sequencer *)

Section Sequencer.
Import PyStr PyStrFacts.

(** With the common prefix [p] not recurring in the remainders, the
    value the code reads is that of the remainder. *)
Lemma suffix_value_prefixed (p r : string) :
  p ≠ EmptyString → contains p r = false →
  suffix_value (p +:+ r) p = int r.
Proof.
  intros Hp Hr. unfold suffix_value.
  by rewrite split_prefixed.
Qed.

(** The nominal expansion: both endpoints are [p] followed by a numeral,
    [p] is their common prefix and does not occur in the numerals. *)
Lemma makeFilenames_nominal (p rs re : string) (n_start n_end : Z) :
  commonprefix (p +:+ rs) (p +:+ re) = p →
  p ≠ EmptyString →
  contains p rs = false → contains p re = false →
  int rs = Ok n_start → int re = Ok n_end →
  makeFilenames (p +:+ rs) (p +:+ re) =
    Ok ((λ i, p +:+ zfill (str i) (String.length (str n_end)))
          <$> range n_start (n_end + 1)%Z).
Proof.
  intros Hcp Hp Hrs Hre Hs He. unfold makeFilenames.
  rewrite Hcp, !suffix_value_prefixed, Hs, He by done.
  done.
Qed.

Lemma suffix_value_self (x : string) : suffix_value x x = Err ValueError.
Proof.
  unfold suffix_value. destruct x as [|c x]; [done |].
  by rewrite split_self.
Qed.

End Sequencer.

(** C4.  The range of the docstring's kind of identifier expands as
    expected, but when the common prefix occurs again inside an endpoint,
    [split(prefix)[1]] is only the text up to that occurrence: for
    "55155".."55255" the remainders 155 and 255 are read as 1 and 2. *)
Theorem makeFilenames_prefix_recurs :
  makeFilenames "KLAC00161000001" "KLAC00161000003"
    = Ok ["KLAC00161000001"; "KLAC00161000002"; "KLAC00161000003"]
  ∧ PyStr.commonprefix "55155" "55255" = "55"
  ∧ PyStr.int "155" = Ok 155%Z ∧ PyStr.int "255" = Ok 255%Z
  ∧ suffix_value "55155" "55" = Ok 1%Z ∧ suffix_value "55255" "55" = Ok 2%Z
  ∧ makeFilenames "55155" "55255" = Ok ["551"; "552"].
Proof. repeat split; vm_compute; reflexivity. Qed.

(** C7.  A range whose two endpoints are the same identifier never
    expands: the common prefix is the whole identifier, the remainder is
    empty and [int('')] raises ValueError (an empty identifier fails in
    [split] already). *)
Theorem makeFilenames_same_endpoint_raises (x : string) :
  makeFilenames x x = Err ValueError.
Proof.
  unfold makeFilenames.
  rewrite PyStrFacts.commonprefix_diag, suffix_value_self. done.
Qed.

(** C6, amended.  The pad width is the number of characters of
    [str(n_end)], the decimal form of the value read for the end; the
    start plays no part in it.  Every emitted name is the common prefix
    followed by [str(i).zfill(width)], so after the prefix it has [width]
    characters, or those of [str(i)] where that is longer. *)
Theorem zpad_width_from_end_value (start end_ : string) (names : list string) :
  makeFilenames start end_ = Ok names →
  let prefix := PyStr.commonprefix start end_ in
  ∃ n_start n_end,
    suffix_value start prefix = Ok n_start
    ∧ suffix_value end_ prefix = Ok n_end
    ∧ let width := String.length (PyStr.str n_end) in
      names = (λ i, prefix +:+ PyStr.zfill (PyStr.str i) width)
                <$> PyStr.range n_start (n_end + 1)%Z
      ∧ ∀ (k : nat) (x : string),
          names !! k = Some x →
          x = prefix +:+ PyStr.zfill (PyStr.str (n_start + Z.of_nat k)%Z) width
          ∧ String.length x
            = (String.length prefix
               + String.length (PyStr.str (n_start + Z.of_nat k)%Z) `max` width)%nat.
Proof.
  intros H prefix. unfold makeFilenames in H. fold prefix in H.
  destruct (suffix_value start prefix) as [n_start|] eqn:Hs; [| done].
  destruct (suffix_value end_ prefix) as [n_end|] eqn:He; [| done].
  simpl in H. injection H as <-.
  exists n_start, n_end. split; [done |]. split; [done |].
  intros width. split; [done |].
  intros k x. rewrite list_lookup_fmap.
  destruct (PyStr.range n_start (n_end + 1) !! k) as [i|] eqn:Hk; [| done].
  apply PyStrFacts.range_lookup in Hk as [-> _].
  simpl. intros [= <-]. split; [done |].
  by rewrite PyStrFacts.length_append, PyStrFacts.zfill_length.
Qed.

(** ** Fetcher: one pass *)

Section FetcherFacts.
Variable respond : list Event → ReqKind → string → string.
Variable highresPart : string → option string.

Abbreviation attempt := (Saa.attempt respond highresPart).
Abbreviation downloadScan := (Saa.downloadScan respond highresPart).
Abbreviation body_at := (descriptor_body respond).

Lemma trace_entered f d w :
  trace (entered f d w) = trace w ++ [EPrint ("Downloading " +:+ f); EMakedirs d].
Proof. unfold entered, log. simpl. by rewrite <- app_assoc. Qed.

Lemma trace_asked f d w :
  trace (asked f d w) =
    trace w ++ [EPrint ("Downloading " +:+ f); EMakedirs d;
                EGet Descriptor (descriptor_url f)].
Proof. unfold asked, entered, log. simpl. by rewrite <- !app_assoc. Qed.

Lemma trace_after_cycle f d w :
  trace (after_cycle f d w) = trace w ++ prep_cycle f d.
Proof.
  unfold after_cycle, asked, entered, log. simpl.
  by rewrite <- !app_assoc.
Qed.


(** A pass that goes beyond the existence check, up to the descriptor
    response. *)
Lemma attempt_enter f d skip w :
  not_skipped f d skip w → dir_creatable d w →
  attempt f d skip w =
    (let data := body_at f d w in
     if PyStr.contains "unavailable" data then
       (Ret Retry, after_cycle f d w)
     else if PyStr.contains "invalid item" data then
       (Ret (Finished Unresolvable),
        log (EPrint ("Cannot resolve: " +:+ f)) (asked f d w))
     else
       (part <~ parse_descriptor highresPart data ;;
        content <~ requests_get respond Binary (BASEURL +:+ part) ;;
        Os.write_file (pdf_path d f) content ;;
        ret (Finished Downloaded)) (asked f d w)).
Proof.
  intros Hskip [Hd Hf].
  assert (Hpre : (if skip then Os.path_exists (pdf_path d f) else ret false) w
                 = (Ret false, w)).
  { destruct Hskip as [-> | Hp]; [done |].
    destruct skip; [| done]. unfold Os.path_exists. by rewrite Hp. }
  unfold attempt, bind at 1. rewrite Hpre.
  unfold bind at 1. unfold Os.print at 1.
  unfold bind at 1. unfold Os.makedirs at 1.
  destruct d as [|c d]; [done |].
  change (Os.is_file (String c d) (log _ w)) with (Os.is_file (String c d) w).
  rewrite Hf.
  unfold bind at 1. unfold requests_get at 1.
  fold (entered f (String c d) w). fold (asked f (String c d) w).
  fold (body_at f (String c d) w).
  cbv zeta.
  destruct (PyStr.contains "unavailable" _); [done |].
  destruct (PyStr.contains "invalid item" _); done.
Qed.

Lemma downloadScan_succ n f d skip w :
  downloadScan (S n) f d skip w =
    match attempt f d skip w with
    | (Ret (Finished o), w') => (Ret o, w')
    | (Ret Retry, w') => downloadScan n f d true w'
    | (Raise e, w') => (Raise e, w')
    | (OutOfFuel, w') => (OutOfFuel, w')
    end.
Proof.
  cbn [Saa.downloadScan]. unfold bind.
  destruct (attempt f d skip w) as [[[o|]| |] w']; done.
Qed.

Lemma requests_app tr1 tr2 : requests (tr1 ++ tr2) = requests tr1 ++ requests tr2.
Proof.
  induction tr1 as [|e tr1 IH]; [done |].
  destruct e; simpl; by rewrite ?IH.
Qed.

Lemma binary_fetches_app tr1 tr2 :
  binary_fetches (tr1 ++ tr2) = binary_fetches tr1 ++ binary_fetches tr2.
Proof. apply omap_app. Qed.

Ltac run_pass :=
  unfold Saa.attempt, bind, ret, raise, Os.path_exists, Os.print,
    Os.makedirs, Os.sleep, Os.write_file, requests_get, parse_descriptor;
  intros; repeat (case_match; unfold ret, raise in *; simplify_eq).



(** [Downloaded] comes from the branch that writes the artifact. *)
Lemma attempt_downloaded_file f d skip w w' :
  attempt f d skip w = (Ret (Finished Downloaded), w') →
  Os.is_file (pdf_path d f) w' = true.
Proof.
  run_pass; unfold Os.is_file; simpl;
    apply bool_decide_eq_true; rewrite lookup_insert_eq; eauto.
Qed.

Lemma downloadScan_downloaded_file n f d skip w w' :
  downloadScan n f d skip w = (Ret Downloaded, w') →
  Os.is_file (pdf_path d f) w' = true.
Proof.
  revert skip w. induction n as [|n IH]; intros skip w; [done |].
  rewrite downloadScan_succ.
  destruct (attempt f d skip w) as [[[o|]| |] w1] eqn:E; try done.
  - intros [= -> ->]. by eapply attempt_downloaded_file.
  - apply IH.
Qed.


(** ** Fetcher: skipping, retrying, giving up *)

Lemma present_of_file p w : Os.is_file p w = true → Os.present p w = true.
Proof. unfold Os.present. by intros ->. Qed.

(** C1.  Once a fetch with [skipIfExist=True] has completed as
    [Downloaded], a following fetch of the same identifier into the same
    destination with [skipIfExist=True] returns [Skipped] at once: its
    only effect is the line 'Already downloaded: ..', the list of HTTP
    requests is unchanged and so are the stored files, whatever archive
    ([respond'], [highresPart']) the second call would talk to. *)
Theorem fetch_twice_skips n f d w w' :
  downloadScan n f d true w = (Ret Downloaded, w') →
  ∀ respond' highresPart' n',
    let w'' := log (EPrint ("Already downloaded: " +:+ f)) w' in
    Saa.downloadScan respond' highresPart' (S n') f d true w'
      = (Ret Skipped, w'')
    ∧ requests (trace w'') = requests (trace w')
    ∧ files w'' = files w'.
Proof.
  intros H respond' highresPart' n' w''.
  apply downloadScan_downloaded_file, present_of_file in H.
  split; [| split; [| done]].
  - cbn [Saa.downloadScan]. unfold bind.
    unfold Saa.attempt, bind, Os.path_exists. by rewrite H.
  - unfold w'', log. simpl. rewrite requests_app. simpl. by rewrite app_nil_r.
Qed.

Lemma dirs_after_cycle f d w : dirs (after_cycle f d w) = {[ d ]} ∪ dirs w.
Proof. done. Qed.

Lemma files_after_cycle f d w : files (after_cycle f d w) = files w.
Proof. done. Qed.

Lemma is_file_after_cycle p f d w :
  Os.is_file p (after_cycle f d w) = Os.is_file p w.
Proof. done. Qed.

Lemma present_after_cycle_twice p f d w :
  Os.present p (after_cycle f d (after_cycle f d w))
  = Os.present p (after_cycle f d w).
Proof.
  unfold Os.present, Os.is_dir. rewrite !is_file_after_cycle, !dirs_after_cycle.
  by rewrite (assoc_L (∪)), (idemp_L (∪)).
Qed.

Lemma trace_cycles n f d w :
  trace (Nat.iter n (after_cycle f d) w)
  = trace w ++ mjoin (replicate n (prep_cycle f d)).
Proof.
  induction n as [|n IH].
  - simpl. by rewrite app_nil_r.
  - rewrite Nat.iter_succ, trace_after_cycle, IH, <- app_assoc. f_equal.
    by rewrite replicate_S_end, join_app.
Qed.

(** An archive that never stops answering "unavailable" keeps the
    fetcher in the Preparing cycle for as many passes as one allows. *)
Lemma unavailable_forever f d :
  (∀ tr, PyStr.contains "unavailable" (respond tr Descriptor (descriptor_url f)) = true) →
  ∀ n skip w,
    not_skipped f d skip w → dir_creatable d w →
    Os.present (pdf_path d f) (after_cycle f d w) = false →
    downloadScan n f d skip w = (OutOfFuel, Nat.iter n (after_cycle f d) w).
Proof.
  intros Hsrv. induction n as [|n IH]; intros skip w Hskip Hdir Habs; [done |].
  rewrite downloadScan_succ, attempt_enter by done.
  cbv zeta. unfold descriptor_body. rewrite Hsrv.
  rewrite Nat.iter_succ_r. apply IH.
  - by right.
  - destruct Hdir as [Hd Hf]. split; [done |]. by rewrite is_file_after_cycle.
  - by rewrite present_after_cycle_twice.
Qed.

(** A pass that goes beyond the existence check makes the directory
    and then asks for the descriptor, whatever comes after. *)
Lemma attempt_reaches_descriptor f d skip w st w' :
  not_skipped f d skip w → dir_creatable d w →
  attempt f d skip w = (st, w') →
  d ∈ dirs w'
  ∧ ∃ rest, trace w' = trace w ++ [EPrint ("Downloading " +:+ f); EMakedirs d;
                                   EGet Descriptor (descriptor_url f)] ++ rest.
Proof.
  intros Hskip Hdir. rewrite attempt_enter by done. cbv zeta.
  pose proof (trace_asked f d w) as Ht.
  destruct (PyStr.contains "unavailable" (body_at f d w)).
  { intros [= <- <-]. split; [set_solver |]. eexists.
    rewrite trace_after_cycle. unfold prep_cycle. simpl. reflexivity. }
  destruct (PyStr.contains "invalid item" (body_at f d w)).
  { intros [= <- <-]. split; [set_solver |]. eexists.
    unfold log. cbn [trace]. rewrite Ht, <- app_assoc. simpl. reflexivity. }
  unfold bind, parse_descriptor, ret, raise, requests_get, Os.write_file.
  intros; repeat (case_match; simplify_eq);
    (split; [set_solver |]); eexists;
    unfold log; cbn [trace]; rewrite Ht, <- ?app_assoc; simpl; reflexivity.
Qed.

(** The nested fetch goes pass by pass like the fetch that is followed
    for a number of passes; where that one is still running, the nested
    one has used up its room and makes the call that does not fit. *)
Lemma nested_succ overflow room f d skip w :
  Saa.downloadScanNested respond highresPart overflow (S room) f d skip w =
    match attempt f d skip w with
    | (Ret (Finished o), w') => (Ret o, w')
    | (Ret Retry, w') =>
        Saa.downloadScanNested respond highresPart overflow room f d true w'
    | (Raise e, w') => (Raise e, w')
    | (OutOfFuel, w') => (OutOfFuel, w')
    end.
Proof.
  cbn [Saa.downloadScanNested]. unfold bind.
  destruct (attempt f d skip w) as [[[o|]| |] w']; done.
Qed.

Lemma nested_unavailable overflow f d :
  (∀ tr, PyStr.contains "unavailable" (respond tr Descriptor (descriptor_url f)) = true) →
  ∀ room skip w,
    not_skipped f d skip w → dir_creatable d w →
    Os.present (pdf_path d f) (after_cycle f d w) = false →
    Saa.downloadScanNested respond highresPart overflow (S room) f d skip w
    = overflow f d true (Nat.iter (S room) (after_cycle f d) w).
Proof.
  intros Hsrv. induction room as [|room IH]; intros skip w Hskip Hdir Habs.
  - rewrite nested_succ, attempt_enter by done.
    cbv zeta. unfold descriptor_body. by rewrite Hsrv.
  - rewrite nested_succ, attempt_enter by done.
    cbv zeta. unfold descriptor_body. rewrite Hsrv.
    rewrite (Nat.iter_succ_r (S room)). apply IH.
    + by right.
    + destruct Hdir as [Hd Hf]. split; [done |]. by rewrite is_file_after_cycle.
    + by rewrite present_after_cycle_twice.
Qed.

(** C2, amended.  A pass whose descriptor response contains
    "unavailable" issues the preparation request, prints and sleeps ten
    seconds, with no binary fetch; the fetcher then calls itself, nested
    in that pass, for the same identifier and destination with the
    default [skipIfExist=True].  If the artifact is still absent at that
    time, the retry starts over at the descriptor request.  The code
    counts no retries, but with an archive that keeps answering
    "unavailable" the cycles go on only as long as the interpreter's stack
    has room for another nested call: after that many complete cycles the
    fetch ends with RecursionError. *)
Theorem preparing_cycle overflow f d skip w :
  not_skipped f d skip w → dir_creatable d w →
  PyStr.contains "unavailable" (body_at f d w) = true →
  let w2 := after_cycle f d w in
  let nested := Saa.downloadScanNested respond highresPart overflow in
  attempt f d skip w = (Ret Retry, w2)
  ∧ trace w2 = trace w ++ prep_cycle f d
  ∧ binary_fetches (prep_cycle f d) = []
  ∧ (∀ room, nested (S room) f d skip w = nested room f d true w2)
  ∧ (Os.present (pdf_path d f) w2 = false →
     (∃ st w3 rest,
        attempt f d true w2 = (st, w3)
        ∧ trace w3 = trace w2 ++ [EPrint ("Downloading " +:+ f); EMakedirs d;
                                  EGet Descriptor (descriptor_url f)] ++ rest)
     ∧ ((∀ tr, PyStr.contains "unavailable"
                 (respond tr Descriptor (descriptor_url f)) = true) →
        ∀ room,
          let w_end := Nat.iter (S room) (after_cycle f d) w in
          nested (S room) f d skip w = overflow f d true w_end
          ∧ trace w_end = trace w ++ mjoin (replicate (S room) (prep_cycle f d))
          ∧ (overflows overflow →
             (nested (S room) f d skip w).1 = Raise RecursionError))).
Proof.
  intros Hskip Hdir Hun w2 nested.
  assert (Hpass : attempt f d skip w = (Ret Retry, w2)).
  { rewrite attempt_enter by done. cbv zeta. by rewrite Hun. }
  split; [done |]. split; [apply trace_after_cycle |]. split; [done |].
  split; [intros room; unfold nested; by rewrite nested_succ, Hpass |].
  intros Habs. split.
  - assert (Hdir2 : dir_creatable d w2).
    { destruct Hdir as [Hd Hf]. split; [done |]. unfold w2. by rewrite is_file_after_cycle. }
    assert (Hskip2 : not_skipped f d true w2) by (by right).
    destruct (attempt f d true w2) as [st w3] eqn:E.
    exists st, w3.
    destruct (attempt_reaches_descriptor _ _ _ _ _ _ Hskip2 Hdir2 E) as [_ [rest Hrest]].
    by exists rest.
  - intros Hsrv room w_end.
    assert (Hrun : nested (S room) f d skip w = overflow f d true w_end)
      by (by apply nested_unavailable).
    split; [done |]. split; [apply trace_cycles |].
    intros Hov. rewrite Hrun. apply Hov.
Qed.

(** C5, amended.  A pass whose descriptor response contains "invalid
    item" and does not contain "unavailable" ends the fetch at once as
    [Unresolvable]: after the descriptor request there is only the line
    'Cannot resolve: ..', no binary fetch and no change to the files. *)
Theorem invalid_item_unresolvable f d skip w :
  not_skipped f d skip w → dir_creatable d w →
  PyStr.contains "invalid item" (body_at f d w) = true →
  PyStr.contains "unavailable" (body_at f d w) = false →
  let w' := log (EPrint ("Cannot resolve: " +:+ f)) (asked f d w) in
  attempt f d skip w = (Ret (Finished Unresolvable), w')
  ∧ (∀ n, downloadScan (S n) f d skip w = (Ret Unresolvable, w'))
  ∧ binary_fetches (trace w') = binary_fetches (trace w)
  ∧ files w' = files w.
Proof.
  intros Hskip Hdir Hinv Hun w'.
  assert (Hpass : attempt f d skip w = (Ret (Finished Unresolvable), w')).
  { rewrite attempt_enter by done. cbv zeta. by rewrite Hun, Hinv. }
  split; [done |]. split; [intros n; by rewrite downloadScan_succ, Hpass |].
  split; [| done].
  unfold w', log. cbn [trace]. rewrite trace_asked, <- app_assoc.
  rewrite binary_fetches_app. simpl. by rewrite app_nil_r.
Qed.




End FetcherFacts.

(** ** Orchestrator *)

Section OrchestratorFacts.
Variable respond : list Event → ReqKind → string → string.
Variable highresPart : string → option string.

Abbreviation attempt := (Saa.attempt respond highresPart).
Abbreviation resume := (Saa.resume respond highresPart).
Abbreviation gather := (Saa.gather respond highresPart).
Abbreviation fetchScans := (Saa.fetchScans respond highresPart).



















(** C8, amended.  When the value read for the end is smaller than the
    one read for the start, the expansion is the empty list and no error
    is raised; the range entry then has no task to run and leaves the
    world as it was, without any request. *)
Theorem reversed_range_is_empty startscan endscan n_start n_end :
  let prefix := PyStr.commonprefix startscan endscan in
  suffix_value startscan prefix = Ok n_start →
  suffix_value endscan prefix = Ok n_end →
  (n_end < n_start)%Z →
  makeFilenames startscan endscan = Ok []
  ∧ ∀ n destination w,
      fetchScans n startscan endscan destination w = (Ret [], w).
Proof.
  intros prefix Hs He Hlt.
  assert (Hnames : makeFilenames startscan endscan = Ok []).
  { unfold makeFilenames. fold prefix. rewrite Hs, He. simpl.
    by rewrite PyStrFacts.range_empty by lia. }
  split; [done |]. intros n destination w.
  unfold Saa.fetchScans. rewrite Hnames. by destruct n.
Qed.

End OrchestratorFacts.

(** ** Concrete runs *)

Section Concrete.
Import Examples.

(** C6: with "A1" and "A12" the common prefix is "A1", nothing is left
    of the start and the call raises; with "A9" and "A010" the end
    remainder "010" has three characters and the width is two. *)
Lemma makeFilenames_A1_A12 :
  makeFilenames "A1" "A12" = Err ValueError
  ∧ makeFilenames "A1" "A12"
    ≠ Ok ["A01"; "A02"; "A03"; "A04"; "A05"; "A06";
          "A07"; "A08"; "A09"; "A10"; "A11"; "A12"]
  ∧ PyStr.split "A010" (PyStr.commonprefix "A9" "A010") = Ok [""; "010"]
  ∧ makeFilenames "A9" "A010" = Ok ["A09"; "A10"].
Proof. repeat split; try (vm_compute; reflexivity). vm_compute. discriminate. Qed.

Lemma zpad_width_A9_A12 :
  makeFilenames "A9" "A12" = Ok ["A09"; "A10"; "A11"; "A12"]
  ∧ ∃ n_start n_end,
      suffix_value "A9" (PyStr.commonprefix "A9" "A12") = Ok n_start
      ∧ suffix_value "A12" (PyStr.commonprefix "A9" "A12") = Ok n_end
      ∧ String.length (PyStr.str n_end) = 2%nat.
Proof.
  assert (H : makeFilenames "A9" "A12" = Ok ["A09"; "A10"; "A11"; "A12"])
    by (vm_compute; reflexivity).
  split; [exact H |].
  destruct (zpad_width_from_end_value "A9" "A12" _ H)
    as (n_start & n_end & Hs & He & _).
  exists n_start, n_end. split; [exact Hs |]. split; [exact He |].
  vm_compute in He. injection He as <-. reflexivity.
Defined.

(** C8: the reversed range "A3".."A1" is the empty list, not an error. *)
Lemma makeFilenames_A3_A1 :
  suffix_value "A3" (PyStr.commonprefix "A3" "A1") = Ok 3%Z
  ∧ suffix_value "A1" (PyStr.commonprefix "A3" "A1") = Ok 1%Z
  ∧ makeFilenames "A3" "A1" = Ok []
  ∧ ∀ e, makeFilenames "A3" "A1" ≠ Err e.
Proof. repeat split; try (vm_compute; reflexivity). intros e. vm_compute. discriminate. Qed.

Lemma reversed_range_A3_A1 :
  makeFilenames "A3" "A1" = Ok []
  ∧ ∀ n, fetchScans archive_ready highres n "A3" "A1" "30/" fresh = (Ret [], fresh).
Proof.
  destruct (reversed_range_is_empty archive_ready highres "A3" "A1" 3 1) as [H1 H2].
  - vm_compute; reflexivity.
  - vm_compute; reflexivity.
  - lia.
  - split; [exact H1 |]. intros n. apply H2.
Defined.

(** C1: a first fetch of K1 downloads it, the second one skips. *)
Lemma fetch_twice_K1 :
  let first := downloadScan archive_ready highres 1 "K1" "30/" true fresh in
  first.1 = Ret Downloaded
  ∧ downloadScan archive_unavailable highres 1 "K1" "30/" true first.2
    = (Ret Skipped, log (EPrint "Already downloaded: K1") first.2)
  ∧ requests (trace (log (EPrint "Already downloaded: K1") first.2))
    = requests (trace first.2).
Proof.
  intros first.
  assert (H : downloadScan archive_ready highres 1 "K1" "30/" true fresh
              = (Ret Downloaded, first.2)) by (vm_compute; reflexivity).
  split; [vm_compute; reflexivity |].
  destruct (fetch_twice_skips archive_ready highres 1 "K1" "30/" fresh first.2 H
              archive_unavailable highres 0%nat) as (H1 & H2 & _).
  split; [exact H1 | exact H2].
Defined.


(** C2: K1 is fetched with [skipIfExist=False] while "30/K1.pdf" exists
    and the archive answers "unavailable" every time.  After one
    preparation and one sleep the retry finds the file and returns
    [Skipped]: there is no second descriptor request and the cycle does
    not repeat.  The same happens with [skipIfExist=True] when the file
    appears during the sleep: of two tasks for K1 in one batch, the first
    is told "unavailable" and sleeps, the second downloads, and the first
    wakes up to return [Skipped] without asking again.  And with the
    artifact absent and the archive answering "unavailable" every time,
    a stack with room for three nested passes ends the fetch with
    RecursionError after three cycles, while the archive would still
    answer "unavailable". *)
Lemma retry_finds_artifact_and_stops :
  let run := downloadScan archive_unavailable highres 5 "K1" "30/" false with_K1 in
  let both := gather archive_ready_after_wait highres 5
                [Waiting "K1" "30/" true; Waiting "K1" "30/" true] fresh in
  let deep := Saa.downloadScanNested archive_unavailable highres stack_full 3
                "K1" "30/" true fresh in
  PyStr.contains "unavailable"
    (descriptor_body archive_unavailable "K1" "30/" with_K1) = true
  ∧ run.1 = Ret Skipped
  ∧ trace run.2 = prep_cycle "K1" "30/" ++ [EPrint "Already downloaded: K1"]
  ∧ requests (trace run.2)
    = [(Descriptor, descriptor_url "K1"); (Preparation, prepare_url "K1")]
  ∧ run ≠ (OutOfFuel, Nat.iter 5 (after_cycle "K1" "30/") with_K1)
  ∧ both.1 = Ret [Skipped; Downloaded]
  ∧ trace both.2
    = prep_cycle "K1" "30/"
      ++ [EPrint "Downloading K1"; EMakedirs "30/";
          EGet Descriptor (descriptor_url "K1");
          EGet Binary (BASEURL +:+ "/dl/scan.pdf");
          EWrite "30/K1.pdf" "%PDF-1.4"]
      ++ [EPrint "Already downloaded: K1"]
  ∧ deep.1 = Raise RecursionError
  ∧ trace deep.2 = prep_cycle "K1" "30/" ++ prep_cycle "K1" "30/" ++ prep_cycle "K1" "30/"
  ∧ PyStr.contains "unavailable"
      (archive_unavailable (trace deep.2) Descriptor (descriptor_url "K1")) = true.
Proof. repeat split; try (vm_compute; reflexivity). vm_compute. discriminate. Qed.

Lemma preparing_cycle_K1 :
  let nested := Saa.downloadScanNested archive_unavailable highres stack_full in
  attempt archive_unavailable highres "K1" "30/" true fresh
    = (Ret Retry, after_cycle "K1" "30/" fresh)
  ∧ trace (after_cycle "K1" "30/" fresh) = prep_cycle "K1" "30/"
  ∧ (∀ room, nested (S room) "K1" "30/" true fresh
             = nested room "K1" "30/" true (after_cycle "K1" "30/" fresh))
  ∧ (∀ room, (nested (S room) "K1" "30/" true fresh).1 = Raise RecursionError
             ∧ trace (Nat.iter (S room) (after_cycle "K1" "30/") fresh)
               = mjoin (replicate (S room) (prep_cycle "K1" "30/"))).
Proof.
  destruct (preparing_cycle archive_unavailable highres stack_full "K1" "30/" true fresh)
    as (H1 & H2 & _ & H4 & H5).
  - right. vm_compute; reflexivity.
  - split; [discriminate | vm_compute; reflexivity].
  - vm_compute; reflexivity.
  - split; [exact H1 |]. split; [exact H2 |]. split; [exact H4 |].
    intros room. destruct H5 as [_ H6]; [vm_compute; reflexivity |].
    destruct (H6 (λ tr, eq_refl) room) as (_ & Htr & Hraise).
    split; [apply Hraise; by intros ???? | exact Htr].
Defined.

(** C5: the first descriptor response for K1 contains "invalid item" and
    also "unavailable".  The fetch prepares, sleeps, asks again and
    downloads: one binary fetch, outcome [Downloaded]. *)
Lemma invalid_item_with_unavailable_downloads :
  let run := downloadScan archive_both_markers highres 5 "K1" "30/" true fresh in
  PyStr.contains "invalid item"
    (descriptor_body archive_both_markers "K1" "30/" fresh) = true
  ∧ run.1 = Ret Downloaded
  ∧ run.1 ≠ Ret Unresolvable
  ∧ binary_fetches (trace run.2) = [BASEURL +:+ "/dl/scan.pdf"]
  ∧ files run.2 !! "30/K1.pdf" = Some "%PDF-1.4".
Proof. repeat split; try (vm_compute; reflexivity). vm_compute. discriminate. Qed.

Lemma invalid_item_K2 :
  downloadScan archive_K2_invalid highres 1 "K2" "30/" true fresh
  = (Ret Unresolvable, log (EPrint "Cannot resolve: K2") (asked "K2" "30/" fresh)).
Proof.
  destruct (invalid_item_unresolvable archive_K2_invalid highres "K2" "30/" true fresh)
    as (_ & H2 & _).
  - right. vm_compute; reflexivity.
  - split; [discriminate | vm_compute; reflexivity].
  - vm_compute; reflexivity.
  - vm_compute; reflexivity.
  - exact (H2 0%nat).
Defined.






End Concrete.

(** * Further properties *)

(** ** Numerals: [int], [str] and [zfill] *)

Section Numerals.
Import PyStr PyStrFacts.

Lemma int_digits_acc (d : Decimal.uint) (acc : positive) :
  int_digits (Zpos acc) AfterDigit (NilEmpty.string_of_uint d)
  = Some (Zpos (Pos.of_uint_acc d acc), EmptyString).
Proof.
  revert acc. induction d as [|d IH|d IH|d IH|d IH|d IH|d IH|d IH|d IH|d IH|d IH];
    intros acc; [done | ..];
    cbn [NilEmpty.string_of_uint int_digits]; cbn [Pos.of_uint_acc];
    (etrans; [| apply IH]); f_equal; simpl; lia.
Qed.

Lemma int_digits_uint (d : Decimal.uint) (last : Last) :
  d ≠ Decimal.Nil →
  int_digits 0 last (NilEmpty.string_of_uint d)
  = Some (Z.of_N (Pos.of_uint d), EmptyString).
Proof.
  revert last. induction d as [|d IH|d IH|d IH|d IH|d IH|d IH|d IH|d IH|d IH|d IH];
    intros last Hd; [done | ..];
    cbn [NilEmpty.string_of_uint int_digits]; cbn [Pos.of_uint];
    try apply (int_digits_acc d).
  destruct d; [done | ..]; by apply IH.
Qed.

Lemma int_digits_zeros (k : nat) (s : string) (last : Last) :
  int_digits 0 last (zeros (S k) +:+ s) = int_digits 0 AfterDigit s.
Proof.
  revert last. induction k as [|k IH]; intros last; [done |].
  change (zeros (S (S k)) +:+ s) with (String "0" (zeros (S k) +:+ s)).
  cbn [int_digits]. apply IH.
Qed.

(** The digits of a positive number, as [str] writes them. *)
Lemma int_digits_pos (p : positive) (last : Last) :
  int_digits 0 last (NilEmpty.string_of_uint (Pos.to_uint p))
  = Some (Zpos p, EmptyString).
Proof.
  rewrite int_digits_uint by apply DecimalPos.Unsigned.to_uint_nonnil.
  by rewrite DecimalPos.Unsigned.of_to.
Qed.

Lemma str_pos (p : positive) :
  str (Zpos p) = NilEmpty.string_of_uint (Pos.to_uint p).
Proof.
  unfold str. simpl. unfold NilZero.string_of_uint.
  pose proof (DecimalPos.Unsigned.to_uint_nonnil p).
  by destruct (Pos.to_uint p).
Qed.

Lemma str_neg (p : positive) :
  str (Zneg p) = String "-" (NilEmpty.string_of_uint (Pos.to_uint p)).
Proof.
  unfold str. simpl. unfold NilZero.string_of_uint.
  pose proof (DecimalPos.Unsigned.to_uint_nonnil p).
  by destruct (Pos.to_uint p).
Qed.

(** A numeral that starts with a digit: [int] reads it from the start. *)
Lemma int_unsigned (s : string) (n : Z) :
  (∀ last, int_digits 0 last s = Some (n, EmptyString)) →
  (∃ c s', s = String c s' ∧ is_Some (digit_val c)) →
  int s = Ok n.
Proof.
  intros Hd (c & s' & -> & [v Hv]).
  assert (Hc : isspace c = false ∧ c ≠ "-"%char ∧ c ≠ "+"%char).
  { revert Hv. unfold digit_val, isspace.
    destruct c as [[] [] [] [] [] [] [] []]; vm_compute; try done. }
  destruct Hc as (Hsp & Hm & Hp).
  unfold int. cbn [lstrip]. rewrite Hsp.
  assert (Hsig : int_signed (String c s') = int_digits 0 AtStart (String c s')).
  { unfold int_signed.
    destruct c as [[] [] [] [] [] [] [] []]; try done. }
  by rewrite Hsig, Hd.
Qed.

Lemma uint_string_digit (d : Decimal.uint) :
  d ≠ Decimal.Nil →
  ∃ c s', NilEmpty.string_of_uint d = String c s'
          ∧ is_Some (digit_val c)
          ∧ (Ascii.eqb c "+" || Ascii.eqb c "-") = false.
Proof.
  intros Hd. destruct d; [done | ..]; eexists _, _;
    (split; [reflexivity |]); split; try done; by eexists.
Qed.

Lemma int_zeros_then (k : nat) (s : string) (n : Z) :
  int_digits 0 AfterDigit s = Some (n, EmptyString) →
  int (zeros (S k) +:+ s) = Ok n.
Proof.
  intros H. apply int_unsigned.
  - intros last. by rewrite int_digits_zeros.
  - exists "0"%char, (zeros k +:+ s). split; [done | by eexists].
Qed.

Lemma int_minus (s : string) (n : Z) :
  int_digits 0 AtStart s = Some (n, EmptyString) →
  int (String "-" s) = Ok (- n)%Z.
Proof. intros H. unfold int. cbn [lstrip]. simpl. by rewrite H. Qed.

Lemma int_of_zfill (n : Z) (width : nat) :
  int (zfill (str n) width) = Ok n.
Proof.
  destruct n as [|p|p].
  - change (str 0) with "0". unfold zfill.
    destruct (width <=? String.length "0")%nat eqn:E; [done |].
    apply Nat.leb_gt in E. simpl in E.
    replace (width - String.length "0")%nat with (S (width - 2)) by (simpl; lia).
    by apply int_zeros_then.
  - rewrite str_pos.
    destruct (uint_string_digit (Pos.to_uint p)) as (c & s' & Hs & Hdig & Hsign);
      [apply DecimalPos.Unsigned.to_uint_nonnil |].
    unfold zfill.
    destruct (width <=? _)%nat eqn:E.
    + apply int_unsigned; [intros last; apply int_digits_pos |].
      exists c, s'. by rewrite Hs.
    + apply Nat.leb_gt in E.
      destruct (width - String.length (NilEmpty.string_of_uint (Pos.to_uint p)))%nat
        as [|k] eqn:Ek; [lia |].
      rewrite Hs at 1. rewrite Hsign.
      apply int_zeros_then, int_digits_pos.
  - rewrite str_neg. unfold zfill.
    destruct (width <=? _)%nat eqn:E.
    + apply (int_minus _ (Zpos p)), int_digits_pos.
    + apply Nat.leb_gt in E.
      destruct (width - String.length (String "-" (NilEmpty.string_of_uint (Pos.to_uint p))))%nat
        as [|k] eqn:Ek; [lia |].
      change (Ascii.eqb "-" "+" || Ascii.eqb "-" "-") with true. cbv iota.
      apply (int_minus _ (Zpos p)).
      rewrite int_digits_zeros. apply int_digits_pos.
Qed.

(** X1.  [int] reads back what [str] and [zfill] wrote: for every
    integer [n] and every width, [int(str(n).zfill(width))] is [n]. *)
Theorem int_zfill_str (n : Z) (width : nat) :
  int (zfill (str n) width) = Ok n.
Proof. apply int_of_zfill. Qed.

End Numerals.

(** ** Sequencer: what an expansion looks like *)

Section Expansion.
Import PyStr PyStrFacts.

Lemma commonprefix_startswith_l (a b : string) :
  startswith (commonprefix a b) a = true.
Proof.
  revert b. induction a as [|x a IH]; intros [|y b]; simpl; try done.
  destruct (Ascii.eqb x y) eqn:E; [| done].
  simpl. by rewrite Ascii.eqb_refl.
Qed.

Lemma commonprefix_startswith_r (a b : string) :
  startswith (commonprefix a b) b = true.
Proof.
  revert b. induction a as [|x a IH]; intros [|y b]; simpl; try done.
  destruct (Ascii.eqb x y) eqn:E; [| done].
  simpl. by rewrite E.
Qed.

(** X2.  [os.path.commonprefix] of two strings is a leading substring of
    both, and every string that leads both leads it: it is the longest
    one. *)
Theorem commonprefix_longest (a b : string) :
  startswith (commonprefix a b) a = true
  ∧ startswith (commonprefix a b) b = true
  ∧ ∀ q, startswith q a = true → startswith q b = true →
         startswith q (commonprefix a b) = true.
Proof.
  split; [apply commonprefix_startswith_l |].
  split; [apply commonprefix_startswith_r |].
  revert b. induction a as [|x a IH]; intros b q Ha Hb.
  - by destruct q.
  - destruct q as [|z q]; [done |].
    destruct b as [|y b]; [done |].
    simpl in Ha, Hb.
    destruct (Ascii.eqb z x) eqn:Ezx; [| done].
    destruct (Ascii.eqb z y) eqn:Ezy; [| done].
    apply Ascii.eqb_eq in Ezx, Ezy. subst x y.
    simpl. rewrite !Ascii.eqb_refl.
    by apply IH.
Qed.

Lemma split_scan_nonempty (sep : string) (k : nat) (s : string) :
  split_scan sep k s ≠ [].
Proof.
  revert k. induction s as [|c s IH]; intros k; simpl; [done |].
  destruct k; [| apply IH].
  destruct (startswith sep (String c s)); [done |].
  by destruct (split_scan sep 0 s).
Qed.

(** Splitting a text at the separator it starts with gives an empty first
    piece and at least one more. *)
Lemma split_leading (sep s : string) :
  sep ≠ EmptyString → startswith sep s = true →
  ∃ piece rest, split s sep = Ok (EmptyString :: piece :: rest).
Proof.
  intros Hsep Hs. destruct sep as [|a sep]; [done |].
  destruct s as [|c s]; [done |].
  unfold split. cbn [split_scan]. rewrite Hs.
  pose proof (split_scan_nonempty (String a sep) (String.length (String a sep) - 1) s) as Hne.
  destruct (split_scan (String a sep) (String.length (String a sep) - 1) s)
    as [|piece rest]; [done |].
  by exists piece, rest.
Qed.

Lemma int_error (s : string) (e : Exn) : int s = Err e → e = ValueError.
Proof.
  unfold int. destruct (int_signed (lstrip s)) as [[n rest]|]; [| by intros [= <-]].
  destruct (all_space rest); [done | by intros [= <-]].
Qed.

Lemma suffix_value_error (s p : string) (e : Exn) :
  startswith p s = true → suffix_value s p = Err e → e = ValueError.
Proof.
  intros Hp. unfold suffix_value.
  destruct p as [|a p]; [by intros [= <-] |].
  destruct (split_leading (String a p) s) as (piece & rest & ->); [done | done |].
  simpl. apply int_error.
Qed.

(** X3.  The only exception [makeFilenames] raises is ValueError (the
    index [1] is always there), and it raises it whenever the two
    endpoints have no leading character in common. *)
Theorem makeFilenames_errors (start end_ : string) :
  (∀ e, makeFilenames start end_ = Err e → e = ValueError)
  ∧ (commonprefix start end_ = EmptyString →
     makeFilenames start end_ = Err ValueError).
Proof.
  split.
  - intros e. unfold makeFilenames.
    destruct (suffix_value start _) as [n_start|e1] eqn:Hs.
    + destruct (suffix_value end_ _) as [n_end|e2] eqn:He; [done |].
      simpl. intros [= <-].
      eapply suffix_value_error; [apply commonprefix_startswith_r | exact He].
    + simpl. intros [= <-].
      eapply suffix_value_error; [apply commonprefix_startswith_l | exact Hs].
  - intros Hp. unfold makeFilenames. by rewrite Hp.
Qed.

Lemma makeFilenames_shape (start end_ : string) (names : list string) :
  makeFilenames start end_ = Ok names →
  ∃ n_start n_end,
    suffix_value start (commonprefix start end_) = Ok n_start
    ∧ suffix_value end_ (commonprefix start end_) = Ok n_end
    ∧ commonprefix start end_ ≠ EmptyString
    ∧ names = (λ i, commonprefix start end_
                    +:+ zfill (str i) (String.length (str n_end)))
              <$> range n_start (n_end + 1)%Z.
Proof.
  unfold makeFilenames. intros H.
  destruct (suffix_value start _) as [n_start|] eqn:Hs; [| done].
  destruct (suffix_value end_ _) as [n_end|] eqn:He; [| done].
  simpl in H. injection H as <-.
  exists n_start, n_end. split; [done |]. split; [done |]. split; [| done].
  intros Hp. rewrite Hp in Hs. done.
Qed.

(** X4.  An expansion lists the numbers from the start's value to the
    end's, each once and in ascending order: it has
    [n_end - n_start + 1] names (none if that is not positive), and the
    [k]-th name is the common prefix followed by a numeral that [int]
    reads as [n_start + k]. *)
Theorem makeFilenames_enumerates (start end_ : string) (names : list string) :
  makeFilenames start end_ = Ok names →
  ∃ n_start n_end,
    suffix_value start (commonprefix start end_) = Ok n_start
    ∧ suffix_value end_ (commonprefix start end_) = Ok n_end
    ∧ length names = Z.to_nat (n_end - n_start + 1)
    ∧ ∀ (k : nat) (x : string),
        names !! k = Some x →
        ∃ numeral, x = commonprefix start end_ +:+ numeral
                   ∧ int numeral = Ok (n_start + Z.of_nat k)%Z.
Proof.
  intros H. destruct (makeFilenames_shape _ _ _ H)
    as (n_start & n_end & Hs & He & _ & ->).
  exists n_start, n_end. split; [done |]. split; [done |]. split.
  - rewrite length_fmap, range_length. lia.
  - intros k x. rewrite list_lookup_fmap.
    destruct (range n_start (n_end + 1) !! k) as [i|] eqn:Hk; [| done].
    apply range_lookup in Hk as [-> _]. simpl. intros [= <-].
    eexists. split; [reflexivity |]. apply int_of_zfill.
Qed.

Lemma append_inj_r (a b c : string) : a +:+ c = b +:+ c → a = b.
Proof.
  revert b. induction a as [|x a IH]; intros [|y b] H; simpl in H.
  - done.
  - apply (f_equal String.length) in H.
    rewrite !length_append in H. simpl in H. lia.
  - apply (f_equal String.length) in H.
    rewrite !length_append in H. simpl in H. lia.
  - injection H as -> H. f_equal. by apply IH.
Qed.

Lemma range_NoDup (a b : Z) : NoDup (range a b).
Proof.
  unfold range. apply NoDup_fmap_2; [| apply NoDup_seq].
  intros i j Hij. simpl in Hij. lia.
Qed.

Lemma startswith_sep_pdf (f : string) :
  startswith "/" (f +:+ ".pdf") = startswith "/" f.
Proof. by destruct f. Qed.

(** Two names that do not start with a slash have different artifact
    paths in one destination. *)
Lemma pdf_path_inj (d f f' : string) :
  startswith "/" f = false → startswith "/" f' = false →
  pdf_path d f = pdf_path d f' → f = f'.
Proof.
  intros Hf Hf'. unfold pdf_path, Os.path_join.
  rewrite !startswith_sep_pdf, Hf, Hf'.
  destruct d as [|c d].
  - apply append_inj_r.
  - destruct (Os.endswith_sep (String c d)); intros H.
    + apply String.app_inj in H. by apply append_inj_r in H.
    + apply String.app_inj in H. apply (String.app_inj "/") in H.
      by apply append_inj_r in H.
Qed.

(** X5.  No name occurs twice in an expansion; and for a range whose
    start does not begin with a slash, no two names of the expansion have
    the same artifact path in a destination, so no two fetches of the
    batch write the same file. *)
Theorem makeFilenames_NoDup (start end_ : string) (names : list string) :
  makeFilenames start end_ = Ok names →
  NoDup names
  ∧ ∀ destination,
      startswith "/" start = false →
      NoDup (pdf_path destination <$> names).
Proof.
  intros H. destruct (makeFilenames_shape _ _ _ H)
    as (n_start & n_end & Hs & He & Hp & ->).
  set (p := commonprefix start end_) in *.
  set (w := String.length (str n_end)).
  assert (Hinj : ∀ i j, p +:+ zfill (str i) w = p +:+ zfill (str j) w → i = j).
  { intros i j Hij. apply String.app_inj in Hij.
    pose proof (int_of_zfill i w) as Hi. rewrite Hij, int_of_zfill in Hi.
    by injection Hi. }
  split.
  - apply NoDup_fmap_2_strong; [| apply range_NoDup].
    intros i j _ _. apply Hinj.
  - intros destination Hstart.
    assert (Hrel : ∀ i, startswith "/" (p +:+ zfill (str i) w) = false).
    { intros i. pose proof (commonprefix_startswith_l start end_) as Hl.
      fold p in Hl. destruct p as [|c p']; [done |].
      destruct start as [|c' start']; [done |].
      simpl in Hl, Hstart |- *.
      destruct (Ascii.eqb c c') eqn:E; [| done].
      apply Ascii.eqb_eq in E. subst c'.
      by destruct (Ascii.eqb "/" c). }
    rewrite <- list_fmap_compose.
    apply NoDup_fmap_2_strong; [| apply range_NoDup].
    intros i j _ _ Hij. simpl in Hij.
    apply Hinj. eapply pdf_path_inj; [apply Hrel | apply Hrel | exact Hij].
Qed.

End Expansion.

(** ** Fetcher: the shape of a run *)

Section FetchRuns.
Variable respond : list Event → ReqKind → string → string.
Variable highresPart : string → option string.

Abbreviation attempt := (Saa.attempt respond highresPart).
Abbreviation downloadScan := (Saa.downloadScan respond highresPart).
Abbreviation body_at := (descriptor_body respond).

Ltac run_body :=
  unfold Saa.attempt, bind, ret, raise, Os.path_exists, Os.print,
    Os.makedirs, Os.sleep, Os.write_file, requests_get, parse_descriptor;
  intros; repeat (case_match; unfold ret, raise in *; simplify_eq).

(** A pass that ends in the recursive call has gone through exactly one
    Preparing cycle. *)
Lemma attempt_retry f d skip w w' :
  attempt f d skip w = (Ret Retry, w') → w' = after_cycle f d w.
Proof. run_body; reflexivity. Qed.

(** A pass is never cut short: the bound is on passes. *)
Lemma attempt_runs f d skip w w' : attempt f d skip w ≠ (OutOfFuel, w').
Proof. intros H. revert H. run_body. Qed.

Lemma attempt_final f d skip w r w' :
  attempt f d skip w = (r, w') → r ≠ Ret Retry →
  ∃ evs, trace w' = trace w ++ evs ∧ final_segment evs.
Proof.
  unfold final_segment.
  run_body; simpl; rewrite <- ?app_assoc; try done;
    eexists; (split; [reflexivity |]); simpl; repeat split; try done; lia.
Qed.

(** X6.  Whatever the archive answers, the log of a fetch is a number
    of complete Preparing cycles (print, makedirs, descriptor request,
    preparation request, print, ten-second sleep), at most as many as
    passes were allowed, followed by one last stretch without sleep or
    preparation request and with at most one descriptor request and one
    binary fetch.  A fetch that is still running has only cycles behind
    it. *)
Theorem fetch_shape n f d skip w r w' :
  downloadScan n f d skip w = (r, w') →
  ∃ (k : nat) (last : list Event),
    (k ≤ n)%nat
    ∧ trace w' = trace w ++ mjoin (replicate k (prep_cycle f d)) ++ last
    ∧ final_segment last
    ∧ (r = OutOfFuel → k = n ∧ last = []).
Proof.
  revert skip w. induction n as [|n IH]; intros skip w.
  - intros [= <- <-]. exists 0%nat, []. simpl.
    rewrite app_nil_r. repeat split; simpl; lia.
  - rewrite downloadScan_succ.
    destruct (attempt f d skip w) as [r1 w1] eqn:E.
    destruct r1 as [[o|]| e |].
    + intros [= <- <-].
      destruct (attempt_final _ _ _ _ _ _ E) as (evs & Ht & Hfin); [done |].
      exists 0%nat, evs. split; [lia |]. split; [by rewrite Ht |]. done.
    + apply attempt_retry in E as ->.
      intros H. destruct (IH _ _ H) as (k & last & Hk & Ht & Hfin & Hout).
      exists (S k), last. split; [lia |]. split; [| split; [done |]].
      * rewrite Ht, trace_after_cycle. simpl. by rewrite <- !app_assoc.
      * intros Hr. destruct (Hout Hr) as [-> ->]. done.
    + intros [= <- <-].
      destruct (attempt_final _ _ _ _ _ _ E) as (evs & Ht & Hfin); [done |].
      exists 0%nat, evs. split; [lia |]. split; [by rewrite Ht |]. done.
    + by apply attempt_runs in E.
Qed.

(** X7.  The Ready branch: when the file name is a single path
    component, the descriptor response contains neither "unavailable"
    nor "invalid item", lxml finds the highres part and the artifact path
    is not a directory, the fetch ends as [Downloaded] in its first pass.
    It makes two requests, the descriptor and then the binary one at
    [BASEURL] followed by the part's url, and stores the body of the
    second under the artifact path, replacing what was there. *)
Theorem ready_downloads f d skip w part :
  plain_name f →
  not_skipped f d skip w → dir_creatable d w →
  PyStr.contains "unavailable" (body_at f d w) = false →
  PyStr.contains "invalid item" (body_at f d w) = false →
  highresPart (body_at f d w) = Some part →
  Os.is_dir (pdf_path d f) (entered f d w) = false →
  let content := respond (trace (asked f d w)) Binary (BASEURL +:+ part) in
  ∃ w', (∀ n, downloadScan (S n) f d skip w = (Ret Downloaded, w'))
        ∧ files w' = <[ pdf_path d f := content ]> (files w)
        ∧ requests (trace w')
          = requests (trace w) ++ [(Descriptor, descriptor_url f);
                                   (Binary, BASEURL +:+ part)]
        ∧ preparations (trace w') = preparations (trace w)
        ∧ sleeps (trace w') = sleeps (trace w).
Proof.
  intros _ Hskip Hdir Hun Hinv Hpart Hnodir content.
  pose proof (attempt_enter respond highresPart f d skip w Hskip Hdir) as Hpass.
  cbv zeta in Hpass. rewrite Hun, Hinv in Hpass.
  unfold bind, parse_descriptor in Hpass. rewrite Hpart in Hpass.
  unfold ret at 1 in Hpass. unfold requests_get, Os.write_file in Hpass.
  change (Os.is_dir (pdf_path d f) (log _ (asked f d w)))
    with (Os.is_dir (pdf_path d f) (entered f d w)) in Hpass.
  rewrite Hnodir in Hpass. unfold ret in Hpass.
  eexists. split; [intros n; rewrite downloadScan_succ, Hpass; reflexivity |].
  split; [done |]. cbn [trace log].
  rewrite trace_asked, <- !app_assoc.
  unfold preparations, sleeps.
  by rewrite requests_app, !omap_app, !app_nil_r.
Qed.

(** X8.  When the descriptor response contains neither marker and lxml
    does not find the highres part, the fetch raises right after the
    descriptor request: no binary fetch is made and no file is written
    (the destination directory has been made). *)
Theorem descriptor_error_raises f d skip w :
  not_skipped f d skip w → dir_creatable d w →
  PyStr.contains "unavailable" (body_at f d w) = false →
  PyStr.contains "invalid item" (body_at f d w) = false →
  highresPart (body_at f d w) = None →
  (∀ n, downloadScan (S n) f d skip w = (Raise DescriptorError, asked f d w))
  ∧ files (asked f d w) = files w
  ∧ binary_fetches (trace (asked f d w)) = binary_fetches (trace w)
  ∧ Os.is_dir d (asked f d w) = true.
Proof.
  intros Hskip Hdir Hun Hinv Hpart.
  pose proof (attempt_enter respond highresPart f d skip w Hskip Hdir) as Hpass.
  cbv zeta in Hpass. rewrite Hun, Hinv in Hpass.
  unfold bind, parse_descriptor in Hpass. rewrite Hpart in Hpass.
  unfold raise in Hpass.
  split; [intros n; by rewrite downloadScan_succ, Hpass |].
  split; [done |]. split.
  - rewrite trace_asked, binary_fetches_app. simpl. by rewrite app_nil_r.
  - unfold Os.is_dir. apply bool_decide_eq_true. simpl. set_solver.
Qed.

(** A pass writes at most the artifact, and only when it ends as
    [Downloaded]. *)
Lemma attempt_files f d skip w r w' :
  attempt f d skip w = (r, w') →
  (∀ p, p ≠ pdf_path d f → files w' !! p = files w !! p)
  ∧ (r ≠ Ret (Finished Downloaded) → files w' = files w).
Proof.
  run_body; simpl; (split; [intros p Hp; by rewrite ?lookup_insert_ne by done | done]).
Qed.

(** X9.  A fetch never touches a file other than its own artifact, and
    it leaves the artifact as it was too unless it ends as [Downloaded]:
    skipping, giving up, raising or still preparing changes no file. *)
Theorem fetch_touches_only_its_artifact n f d skip w r w' :
  downloadScan n f d skip w = (r, w') →
  (∀ p, p ≠ pdf_path d f → files w' !! p = files w !! p)
  ∧ (r ≠ Ret Downloaded → files w' = files w).
Proof.
  revert skip w. induction n as [|n IH]; intros skip w.
  - by intros [= <- <-].
  - rewrite downloadScan_succ.
    destruct (attempt f d skip w) as [r1 w1] eqn:E.
    apply attempt_files in E as [Hother Hsame].
    destruct r1 as [[o|]| e |].
    + intros [= <- <-]. split; [done |].
      intros Hr. apply Hsame. congruence.
    + intros H. destruct (IH _ _ H) as [Hother2 Hsame2]. split.
      * intros p Hp. by rewrite Hother2, Hother.
      * intros Hr. by rewrite Hsame2, Hsame.
    + intros [= <- <-]. split; [done |]. intros _. by apply Hsame.
    + intros [= <- <-]. split; [done |]. intros _. by apply Hsame.
Qed.

End FetchRuns.

(** ** Orchestrator: which files a batch writes *)

Section BatchFiles.
Variable respond : list Event → ReqKind → string → string.
Variable highresPart : string → option string.

Abbreviation resume := (Saa.resume respond highresPart).
Abbreviation gather := (Saa.gather respond highresPart).
Abbreviation fetchScans := (Saa.fetchScans respond highresPart).

Lemma resume_files t w r w' :
  resume t w = (r, w') →
  (∀ p, p ∉ artifacts [t] → files w' !! p = files w !! p)
  ∧ (∀ t', r = Ret t' → artifacts [t'] ⊆ artifacts [t]).
Proof.
  destruct t as [f d skip | o]; simpl.
  - unfold bind.
    destruct (Saa.attempt respond highresPart f d skip w) as [r1 w1] eqn:E.
    apply attempt_files in E as [Hother _].
    intros H. split.
    + intros p Hp. assert (p ≠ pdf_path d f) by set_solver.
      destruct r1 as [[o|]| e |]; unfold ret in H; simplify_eq; by apply Hother.
    + intros t' ->. destruct r1 as [[o|]| e |]; unfold ret in H; simplify_eq; set_solver.
  - intros [= <- <-]. split; [done |]. by intros t' [= <-].
Qed.

Lemma artifacts_cons t ts : artifacts (t :: ts) = artifacts [t] ++ artifacts ts.
Proof. unfold artifacts. simpl. by destruct t. Qed.

Lemma round_files ts w r w' :
  mapM resume ts w = (r, w') →
  (∀ p, p ∉ artifacts ts → files w' !! p = files w !! p)
  ∧ (∀ ts', r = Ret ts' → artifacts ts' ⊆ artifacts ts).
Proof.
  revert w r w'. induction ts as [|t ts IH]; intros w r w'.
  - intros [= <- <-]. split; [done |]. by intros ts' [= <-].
  - cbn [mapM]. unfold bind at 1.
    destruct (resume t w) as [r1 w1] eqn:E.
    apply resume_files in E as [Hf1 Ha1].
    rewrite (artifacts_cons t ts).
    destruct r1 as [t1| e |].
    + unfold bind at 1.
      destruct (mapM resume ts w1) as [r2 w2] eqn:E2.
      apply IH in E2 as [Hf2 Ha2].
      assert (Hfiles : ∀ p, p ∉ artifacts [t] ++ artifacts ts →
                            files w2 !! p = files w !! p).
      { intros p Hp. rewrite Hf2, Hf1; set_solver. }
      destruct r2 as [ts2| e |]; intros [= <- <-]; (split; [done |]);
        intros ts' Hts'; simplify_eq.
      rewrite (artifacts_cons t1 ts2).
      specialize (Ha1 _ eq_refl). specialize (Ha2 _ eq_refl). set_solver.
    + intros [= <- <-]. split; [| done]. intros p Hp. apply Hf1. set_solver.
    + intros [= <- <-]. split; [| done]. intros p Hp. apply Hf1. set_solver.
Qed.

Lemma gather_files n ts w r w' :
  gather n ts w = (r, w') →
  ∀ p, p ∉ artifacts ts → files w' !! p = files w !! p.
Proof.
  revert ts w. induction n as [|n IH]; intros ts w; simpl.
  - destruct (results ts); by intros [= <- <-].
  - destruct (results ts); [by intros [= <- <-] |].
    unfold bind. destruct (mapM resume ts w) as [r1 w1] eqn:E.
    apply round_files in E as [Hf Ha].
    destruct r1 as [ts1| e |].
    + intros H p Hp. rewrite (IH _ _ H); [by apply Hf |].
      specialize (Ha _ eq_refl). set_solver.
    + intros [= <- <-] p Hp. by apply Hf.
    + intros [= <- <-] p Hp. by apply Hf.
Qed.

(** X10.  Whatever the archive answers, a batch in which no fetch raises
    changes no file other than the artifacts of its own targets, be it
    through or still running after any number of rounds. *)
Theorem gather_touches_only_artifacts n ts w r w' :
  gather n ts w = (r, w') →
  (∀ e, r ≠ Raise e) →
  ∀ p, p ∉ artifacts ts → files w' !! p = files w !! p.
Proof. intros Hrun _. by eapply gather_files. Qed.

End BatchFiles.

(** ** Listing reader *)

Section ListingFacts.
Import PyStr PyStrFacts PyLine.

Lemma remove_clean (c : ascii) (s : string) :
  contains (String c EmptyString) (remove c s) = false.
Proof.
  induction s as [|x s IH]; simpl; [done |].
  destruct (Ascii.eqb x c) eqn:E; [done |].
  simpl. rewrite Ascii.eqb_sym, E. exact IH.
Qed.

Lemma take_drop (k : nat) (s : string) : take k s +:+ drop k s = s.
Proof.
  revert k. induction s as [|x s IH]; intros [|k]; simpl; try done.
  change (String x (take k s +:+ drop k s) = String x s). by rewrite IH.
Qed.

Lemma length_drop (k : nat) (s : string) :
  String.length (drop k s) = (String.length s - k)%nat.
Proof. revert k. induction s as [|x s IH]; intros [|k]; simpl; try done. Qed.

Lemma startswith_same_length (p s : string) :
  startswith p s = true → String.length s = String.length p → s = p.
Proof.
  revert s. induction p as [|a p IH]; intros [|b s]; simpl; try done.
  destruct (Ascii.eqb a b) eqn:E; [| done].
  apply Ascii.eqb_eq in E as ->. intros H [= Hlen]. f_equal. by apply IH.
Qed.

(** [s.endswith(m)] says that [s] is some text followed by [m]. *)
Lemma endswith_split (m s : string) :
  endswith m s = true → s = slice_to_minus (String.length m) s +:+ m.
Proof.
  unfold endswith, slice_to_minus.
  destruct (String.length m <=? String.length s)%nat eqn:E; [| done].
  apply Nat.leb_le in E. intros H.
  apply startswith_same_length in H; [| rewrite length_drop; lia].
  rewrite <- H at 2. by rewrite take_drop.
Qed.

Lemma endswith_append (m x : string) : endswith m (x +:+ m) = true.
Proof.
  unfold endswith. rewrite length_append.
  replace (String.length m <=? String.length x + String.length m)%nat
    with true by (symmetry; apply Nat.leb_le; lia).
  replace (String.length x + String.length m - String.length m)%nat
    with (String.length x) by lia.
  induction x as [|c x IH]; simpl; [| exact IH].
  destruct m; [done | apply startswith_refl].
Qed.

Lemma take_append (x y : string) : take (String.length x) (x +:+ y) = x.
Proof. induction x as [|c x IH]; simpl; [by destruct y | by rewrite IH]. Qed.

Lemma append_cons (x : ascii) (a b : string) :
  String x a +:+ b = String x (a +:+ b).
Proof. reflexivity. Qed.

Lemma append_assoc (a b c : string) : (a +:+ b) +:+ c = a +:+ b +:+ c.
Proof. induction a as [|x a IH]; [done | by rewrite !append_cons, IH]. Qed.

(** Cutting three characters off an item that ends with the marker
    leaves the first zero of the marker in place. *)
Lemma slice_marker (x : string) :
  slice_to_minus 3 (x +:+ MARKER) = x +:+ "0".
Proof.
  assert (Hm : x +:+ MARKER
               = (x +:+ "0") +:+ String "0" (String "1" (String QUOTE EmptyString)))
    by (by rewrite append_assoc).
  unfold slice_to_minus. rewrite Hm, length_append.
  replace (String.length (x +:+ "0")
           + String.length (String "0" (String "1" (String QUOTE EmptyString))) - 3)%nat
    with (String.length (x +:+ "0")) by (simpl; lia).
  apply take_append.
Qed.

Lemma contains_append (m a b : string) : contains m (a +:+ m +:+ b) = true.
Proof.
  induction a as [|c a IH]; simpl.
  - destruct m as [|x m]; [by destruct b |].
    simpl. rewrite Ascii.eqb_refl.
    by rewrite startswith_append.
  - destruct (startswith m (String c (a +:+ m +:+ b))); [done | exact IH].
Qed.

Lemma append_nil_r (a : string) : a +:+ EmptyString = a.
Proof. induction a as [|x a IH]; [done | by rewrite append_cons, IH]. Qed.

Lemma startswith_append_r (m y b : string) :
  startswith m y = true → startswith m (y +:+ b) = true.
Proof.
  revert y. induction m as [|a m IH]; intros [|c y]; simpl; try done.
  destruct (Ascii.eqb a c); [apply IH | done].
Qed.

Lemma contains_empty (s : string) : contains EmptyString s = true.
Proof. by destruct s. Qed.

Lemma contains_append_r (m y b : string) :
  contains m y = true → contains m (y +:+ b) = true.
Proof.
  induction y as [|c y IH].
  - destruct m; [intros _; apply contains_empty | done].
  - cbn [contains]. intros H.
    change (String c y +:+ b) with (String c (y +:+ b)). cbn [contains].
    destruct (startswith m (String c y)) eqn:E.
    + change (String c (y +:+ b)) with (String c y +:+ b).
      by rewrite (startswith_append_r _ _ _ E).
    + change (String c (y +:+ b)) with (String c y +:+ b).
      destruct (startswith m (String c y +:+ b)); [done | by apply IH].
Qed.

Lemma contains_cons (m : string) (c : ascii) (s : string) :
  contains m s = true → contains m (String c s) = true.
Proof.
  intros H. cbn [contains].
  by destruct (startswith m (String c s)).
Qed.

Lemma endswith_contains (m x : string) :
  endswith m x = true → contains m x = true.
Proof.
  intros H. rewrite (endswith_split _ _ H).
  pose proof (contains_append m (slice_to_minus (String.length m) x) EmptyString) as Hc.
  by rewrite append_nil_r in Hc.
Qed.

(** The first piece of a split leads the text. *)
Lemma split_scan_head (sep s h : string) (t : list string) :
  split_scan sep 0 s = h :: t → ∃ b, s = h +:+ b.
Proof.
  revert h t. induction s as [|c s IH]; intros h t; simpl.
  - intros [= <- <-]. by exists EmptyString.
  - destruct (startswith sep (String c s)).
    + intros [= <- <-]. by exists (String c s).
    + destruct (split_scan sep 0 s) as [|piece rest] eqn:E.
      * intros [= <- <-]. exists s. done.
      * intros [= <- <-]. destruct (IH _ _ eq_refl) as [b ->]. by exists b.
Qed.

(** What occurs in a piece of a split occurs in the text. *)
Lemma split_scan_contains (m sep : string) (k : nat) (s x : string) :
  x ∈ split_scan sep k s → contains m x = true → contains m s = true.
Proof.
  revert k x. induction s as [|c s IH]; intros k x; cbn [split_scan].
  - by intros ->%list_elem_of_singleton.
  - destruct k as [|k].
    + destruct (startswith sep (String c s)) eqn:Esep.
      * intros [-> | Hx]%elem_of_cons Hm.
        -- destruct m; [apply contains_empty | done].
        -- apply contains_cons. by eapply IH.
      * destruct (split_scan sep 0 s) as [|piece rest] eqn:E.
        -- by destruct (split_scan_nonempty sep 0 s).
        -- intros [-> | Hx]%elem_of_cons Hm.
           ++ destruct (split_scan_head _ _ _ _ E) as [b ->].
              change (String c (piece +:+ b)) with (String c piece +:+ b).
              by apply contains_append_r.
           ++ apply contains_cons. eapply (IH 0%nat); [| done].
              rewrite E. by right.
    + intros Hx Hm. apply contains_cons. by eapply IH.
Qed.

Lemma find_prefix_none (items : list string) (prefix : option string) :
  (∀ item, item ∈ items → endswith MARKER item = false) →
  find_prefix items prefix = prefix.
Proof.
  induction items as [|item items IH]; intros H; simpl; [done |].
  rewrite H by (by left). apply IH. intros x Hx. apply H. by right.
Qed.

Lemma find_prefix_first (pre post : list string) (x : string) (prefix : option string) :
  (∀ item, item ∈ pre → endswith MARKER item = false) →
  find_prefix (pre ++ (x +:+ MARKER) :: post) prefix = Some (x +:+ "0").
Proof.
  induction pre as [|item pre IH]; intros H; simpl.
  - by rewrite endswith_append, slice_marker.
  - rewrite H by (by left). apply IH. intros y Hy. apply H. by right.
Qed.

Lemma select_spec (index p : string) (items : list string) (i x : string) :
  (i, x) ∈ select index p items
  ↔ i = index ∧ ∃ item, item ∈ items ∧ startswith p item = true
                        ∧ x = remove QUOTE item.
Proof.
  induction items as [|item items IH]; simpl.
  - split; [by intros ?%elem_of_nil | intros [_ (item & ?%elem_of_nil & _)]; done].
  - destruct (startswith p item) eqn:E.
    + rewrite elem_of_cons, IH. split.
      * intros [[= -> ->] | [-> (it & Hit & Hp & ->)]].
        -- split; [done |]. exists item. split; [by left | done].
        -- split; [done |]. exists it. split; [by right | done].
      * intros [-> (it & [-> | Hit]%elem_of_cons & Hp & ->)].
        -- by left.
        -- right. split; [done |]. by exists it.
    + rewrite IH. split.
      * intros [-> (it & Hit & Hp & ->)].
        split; [done |]. exists it. split; [by right | done].
      * intros [-> (it & [-> | Hit]%elem_of_cons & Hp & ->)]; [congruence |].
        split; [done |]. by exists it.
Qed.

Lemma split_two (sep s : string) :
  sep ≠ EmptyString → contains sep s = true →
  ∃ first second rest, split_scan sep 0 s = first :: second :: rest.
Proof.
  intros Hsep. induction s as [|c s IH]; cbn [contains split_scan].
  - destruct sep; done.
  - destruct (startswith sep (String c s)).
    + intros _.
      pose proof (split_scan_nonempty sep (String.length sep - 1) s) as Hne.
      destruct (split_scan sep (String.length sep - 1) s) as [|x rest]; [done |].
      by exists EmptyString, x, rest.
    + intros H. destruct (IH H) as (first & second & rest & ->).
      by exists (String c first), second, rest.
Qed.

Lemma scan_line_without_comma (prefix : option string) (line : string) :
  contains "," line = false → scan_line prefix line = LErr (Py IndexError).
Proof.
  intros H. unfold scan_line, split. by rewrite split_scan_absent.
Qed.

(** X11.  A line without a comma, such as an empty last line, makes the
    reader fail: nothing of the listing is fetched and the world is left
    as it was.  When it is the first line the exception is IndexError. *)
Theorem listing_line_without_comma (lines : list string) (line : string) :
  line ∈ lines → contains "," line = false →
  ∃ e, all_scans lines = LErr e
       ∧ (∀ respond highresPart fuel w,
            fetchScansFromFile respond highresPart fuel lines w = (Unparsed e, w))
       ∧ (head lines = Some line → e = Py IndexError).
Proof.
  intros Hin Hline.
  assert (Hall : ∃ e, all_scans lines = LErr e
                      ∧ (head lines = Some line → e = Py IndexError)).
  { unfold all_scans. generalize (@None string) as prefix.
    induction lines as [|l lines IH]; intros prefix; [by apply elem_of_nil in Hin |].
    cbn [scan_lines head].
    destruct (decide (l = line)) as [-> | Hne].
    - rewrite scan_line_without_comma by done. eauto.
    - apply elem_of_cons in Hin as [-> | Hin]; [done |].
      destruct (scan_line prefix l) as [[prefix' found]|e].
      + destruct (IH Hin prefix') as (e & -> & _). exists e. split; [done |].
        by intros [= ->].
      + exists e. split; [done |]. by intros [= ->]. }
  destruct Hall as (e & He & Hhead). exists e. split; [done |]. split; [| done].
  intros respond highresPart fuel w. unfold fetchScansFromFile. by rewrite He.
Qed.

(** X12.  A line with a comma and without the marker [001'] takes its
    prefix from the lines before it: as the first line of a listing it
    raises UnboundLocalError, and after a line that has bound the prefix
    to [p] it is read with that same [p]. *)
Theorem listing_line_without_marker (line : string) :
  contains "," line = true → contains MARKER line = false →
  ∃ items second,
    split line "," = Ok items ∧ items !! 1%nat = Some second
    ∧ (∀ rest, all_scans (line :: rest) = LErr UnboundLocalError)
    ∧ ∀ p, scan_line (Some p) line
           = LOk (Some p, select (remove QUOTE second) p items).
Proof.
  intros Hcomma Hmarker.
  destruct (split_two "," line) as (first & second & rest & Hitems); [done | done |].
  exists (first :: second :: rest), second.
  assert (Hnone : ∀ prefix, find_prefix (first :: second :: rest) prefix = prefix).
  { intros prefix. apply find_prefix_none. intros item Hitem.
    destruct (endswith MARKER item) eqn:E; [| done].
    rewrite <- Hitems in Hitem.
    apply endswith_contains in E.
    by rewrite (split_scan_contains _ _ _ _ _ Hitem E) in Hmarker. }
  split; [unfold split; by rewrite Hitems |]. split; [done |]. split.
  - intros more. unfold all_scans. cbn [scan_lines].
    unfold scan_line, split. rewrite Hitems. cbn [index lookup list_lookup].
    by rewrite Hnone.
  - intros p. unfold scan_line, split. rewrite Hitems.
    cbn [index lookup list_lookup]. by rewrite Hnone.
Qed.

Lemma startswith_append_same (x a r : string) :
  startswith (x +:+ a) (x +:+ r) = startswith a r.
Proof.
  induction x as [|c x IH]; [done |].
  rewrite !append_cons. cbn [startswith]. by rewrite Ascii.eqb_refl.
Qed.

(** X13.  On a line whose first item ending with [001'] is [x001'], the
    prefix becomes [x0], whatever it was before: cutting three characters
    leaves the first zero of the marker.  The line then yields the items
    that start with [x0], the marker item among them, so an item [x]
    followed by [r] is kept exactly when [r] starts with a zero. *)
Theorem listing_marker_line (line x second : string) (pre post : list string)
    (prefix : option string) :
  let items := pre ++ (x +:+ MARKER) :: post in
  split line "," = Ok items →
  (∀ item, item ∈ pre → endswith MARKER item = false) →
  items !! 1%nat = Some second →
  let index := remove QUOTE second in
  scan_line prefix line = LOk (Some (x +:+ "0"), select index (x +:+ "0") items)
  ∧ (index, remove QUOTE (x +:+ MARKER)) ∈ select index (x +:+ "0") items
  ∧ ∀ r, startswith (x +:+ "0") (x +:+ r) = startswith "0" r.
Proof.
  intros items Hsplit Hpre Hsecond index.
  split; [| split].
  - unfold scan_line. rewrite Hsplit. unfold PyStr.index. rewrite Hsecond.
    unfold items. by rewrite find_prefix_first.
  - apply select_spec. split; [done |]. exists (x +:+ MARKER).
    split; [unfold items; set_solver |]. split; [| done].
    by rewrite startswith_append_same.
  - intros r. apply startswith_append_same.
Qed.

Lemma scan_line_entries (prefix prefix' : option string) (line : string)
    (found : list (string * string)) (i x : string) :
  scan_line prefix line = LOk (prefix', found) → (i, x) ∈ found →
  ∃ items second item,
    split line "," = Ok items ∧ items !! 1%nat = Some second
    ∧ item ∈ items ∧ i = remove QUOTE second ∧ x = remove QUOTE item.
Proof.
  unfold scan_line.
  destruct (split line ",") as [items|] eqn:Hs; [| done].
  unfold PyStr.index.
  destruct (items !! 1%nat) as [second|] eqn:H1; [| done].
  destruct (find_prefix items prefix) as [p|]; [| done].
  intros [= <- <-] Hin. apply select_spec in Hin as [-> (item & Hitem & _ & ->)].
  by exists items, second, item.
Qed.

(** X14.  Every pair the reader collects comes from a line of the
    listing: the scan is an item of that line and the group is the second
    item of the same line, both with every single quote removed, so that
    neither contains a quote. *)
Theorem all_scans_entries (lines : list string) (scans : list (string * string))
    (i x : string) :
  all_scans lines = LOk scans → (i, x) ∈ scans →
  (∃ line items second item,
     line ∈ lines ∧ split line "," = Ok items ∧ items !! 1%nat = Some second
     ∧ item ∈ items ∧ i = remove QUOTE second ∧ x = remove QUOTE item)
  ∧ contains (String QUOTE EmptyString) i = false
  ∧ contains (String QUOTE EmptyString) x = false.
Proof.
  intros Hall Hin.
  assert (Hfrom : ∃ line items second item,
     line ∈ lines ∧ split line "," = Ok items ∧ items !! 1%nat = Some second
     ∧ item ∈ items ∧ i = remove QUOTE second ∧ x = remove QUOTE item).
  { revert Hall Hin. unfold all_scans. generalize (@None string) as prefix.
    revert scans. induction lines as [|l lines IH]; intros scans prefix; cbn [scan_lines].
    - intros [= <-]. by intros ?%elem_of_nil.
    - destruct (scan_line prefix l) as [[prefix' found]|] eqn:El; [| done].
      destruct (scan_lines prefix' lines) as [more|] eqn:Em; [| done].
      intros [= <-] [Hin | Hin]%elem_of_app.
      + destruct (scan_line_entries _ _ _ _ _ _ El Hin)
          as (items & second & item & ? & ? & ? & ? & ?).
        exists l, items, second, item. split; [by left | done].
      + destruct (IH _ _ Em Hin) as (line & items & second & item & ? & ?).
        exists line, items, second, item. split; [by right | done]. }
  split; [done |].
  destruct Hfrom as (line & items & second & item & _ & _ & _ & _ & -> & ->).
  split; apply remove_clean.
Qed.

End ListingFacts.


(** ** The two entry points: which files they write *)

Section EntryFiles.
Variable respond : list Event → ReqKind → string → string.
Variable highresPart : string → option string.

Lemma artifacts_of_names (d : string) (names : list string) :
  artifacts ((λ f, Waiting f d true) <$> names) = pdf_path d <$> names.
Proof.
  induction names as [|f names IH]; [done |].
  rewrite !fmap_cons, artifacts_cons, IH. done.
Qed.

Lemma artifacts_of_scans (scans : list (string * string)) :
  artifacts ((λ '(i, scan), Waiting scan (i +:+ "/") true) <$> scans)
  = (λ '(i, scan), pdf_path (i +:+ "/") scan) <$> scans.
Proof.
  induction scans as [|[i x] scans IH]; [done |].
  rewrite !fmap_cons, artifacts_cons, IH. done.
Qed.

(** X16.  A range run in which no fetch raises changes no file other
    than [destination/name.pdf] for the names of the expansion, and such
    a listing run no file other than [group/scan.pdf] for the pairs read
    from the listing, whatever the archive answers; a run whose range or
    listing cannot be read changes nothing at all. *)
Theorem entry_points_touch_only_artifacts (fuel : nat) (w : World) (p : string) :
  (∀ startscan endscan destination r w',
     fetchScans respond highresPart fuel startscan endscan destination w = (r, w') →
     (∀ names e, makeFilenames startscan endscan = Ok names → r ≠ Raise e) →
     (∀ names, makeFilenames startscan endscan = Ok names →
               p ∉ pdf_path destination <$> names) →
     files w' !! p = files w !! p)
  ∧ (∀ lines r w',
       fetchScansFromFile respond highresPart fuel lines w = (r, w') →
       (∀ e, r ≠ Gathered (Raise e)) →
       (∀ scans, all_scans lines = LOk scans →
                 p ∉ (λ '(i, scan), pdf_path (i +:+ "/") scan) <$> scans) →
       files w' !! p = files w !! p).
Proof.
  split.
  - intros startscan endscan destination r w'. unfold Saa.fetchScans.
    destruct (makeFilenames startscan endscan) as [names|e].
    + intros Hrun _ Hp. eapply gather_files; [exact Hrun |].
      rewrite artifacts_of_names. by apply Hp.
    + by intros [= <- <-].
  - intros lines r w'. unfold fetchScansFromFile.
    destruct (all_scans lines) as [scans|e].
    + destruct (Saa.gather respond highresPart fuel _ w) as [r1 w1] eqn:Hrun.
      intros [= <- <-] _ Hp. eapply gather_files; [exact Hrun |].
      rewrite artifacts_of_scans. by apply Hp.
    + by intros [= <- <-].
Qed.

End EntryFiles.

(** ** Concrete runs, continued *)

Section MoreConcrete.
Import Examples ListingExamples.

Lemma commonprefix_KLAC :
  PyStr.commonprefix "KLAC01462000001" "KLAC01462000079" = "KLAC014620000"
  ∧ PyStr.startswith "KLAC0146" (PyStr.commonprefix "KLAC01462000001" "KLAC01462000079")
    = true.
Proof.
  split; [vm_compute; reflexivity |].
  destruct (commonprefix_longest "KLAC01462000001" "KLAC01462000079") as (_ & _ & H).
  apply H; vm_compute; reflexivity.
Defined.

Lemma makeFilenames_A1_B2 :
  makeFilenames "A1" "B2" = Err ValueError.
Proof.
  destruct (makeFilenames_errors "A1" "B2") as [_ H].
  apply H. vm_compute; reflexivity.
Defined.

Lemma enumerates_main_range :
  ∃ names, makeFilenames "KLAC01462000001" "KLAC01462000079" = Ok names
           ∧ length names = 79%nat
           ∧ names !! 78%nat = Some "KLAC01462000079".
Proof.
  destruct (makeFilenames "KLAC01462000001" "KLAC01462000079") as [names|] eqn:E;
    [| by vm_compute in E].
  exists names. split; [done |].
  destruct (makeFilenames_enumerates _ _ _ E) as (n_start & n_end & Hs & He & Hlen & _).
  vm_compute in Hs, He. injection Hs as <-. injection He as <-.
  split; [exact Hlen |].
  vm_compute in E. injection E as <-. reflexivity.
Defined.

Lemma NoDup_main_range :
  ∃ names, makeFilenames "KLAC01462000001" "KLAC01462000079" = Ok names
           ∧ NoDup names ∧ NoDup (pdf_path "30/" <$> names).
Proof.
  destruct (makeFilenames "KLAC01462000001" "KLAC01462000079") as [names|] eqn:E;
    [| by vm_compute in E].
  exists names. split; [done |].
  destruct (makeFilenames_NoDup _ _ _ E) as [H1 H2].
  split; [exact H1 |]. apply H2. vm_compute; reflexivity.
Defined.

Lemma fetch_shape_K1 :
  ∃ (k : nat) (last : list Event),
    (k ≤ 3)%nat
    ∧ trace (downloadScan archive_ready_after_wait highres 3 "K1" "30/" true fresh).2
      = trace fresh ++ mjoin (replicate k (prep_cycle "K1" "30/")) ++ last
    ∧ final_segment last.
Proof.
  destruct (fetch_shape archive_ready_after_wait highres 3 "K1" "30/" true fresh
              (downloadScan archive_ready_after_wait highres 3 "K1" "30/" true fresh).1
              (downloadScan archive_ready_after_wait highres 3 "K1" "30/" true fresh).2)
    as (k & last & Hk & Ht & Hfin & _).
  - vm_compute; reflexivity.
  - by exists k, last.
Defined.

Lemma ready_K1_overwrites :
  ∃ w', downloadScan archive_ready highres 1 "K1" "30/" false with_K1 = (Ret Downloaded, w')
        ∧ files w' = <[ "30/K1.pdf" := "%PDF-1.4" ]> (files with_K1).
Proof.
  destruct (ready_downloads archive_ready highres "K1" "30/" false with_K1 "/dl/scan.pdf")
    as (w' & Hrun & Hfiles & _).
  - split; [vm_compute; reflexivity |]. split; [vm_compute; reflexivity |].
    simpl. lia.
  - by left.
  - split; [discriminate | vm_compute; reflexivity].
  - vm_compute; reflexivity.
  - vm_compute; reflexivity.
  - vm_compute; reflexivity.
  - vm_compute; reflexivity.
  - exists w'. split; [apply (Hrun 0%nat) | exact Hfiles].
Defined.

Lemma error_page_raises :
  downloadScan archive_error_page highres 1 "K1" "30/" true fresh
  = (Raise DescriptorError, asked "K1" "30/" fresh).
Proof.
  destruct (descriptor_error_raises archive_error_page highres "K1" "30/" true fresh)
    as (H & _).
  - right. vm_compute; reflexivity.
  - split; [discriminate | vm_compute; reflexivity].
  - vm_compute; reflexivity.
  - vm_compute; reflexivity.
  - vm_compute; reflexivity.
  - apply (H 0%nat).
Defined.

Lemma fetch_K2_keeps_K1 :
  files (downloadScan archive_ready highres 1 "K2" "30/" true with_K1).2 !! "30/K1.pdf"
  = Some "old scan".
Proof.
  destruct (fetch_touches_only_its_artifact archive_ready highres 1 "K2" "30/" true with_K1
              (downloadScan archive_ready highres 1 "K2" "30/" true with_K1).1
              (downloadScan archive_ready highres 1 "K2" "30/" true with_K1).2)
    as [H _].
  - vm_compute; reflexivity.
  - rewrite H; [vm_compute; reflexivity |]. vm_compute. discriminate.
Defined.

Lemma batch_K2_K3_keeps_K1 :
  files (gather archive_K2_invalid highres 2
           [Waiting "K2" "30/" true; Waiting "K3" "30/" true] with_K1).2 !! "30/K1.pdf"
  = Some "old scan".
Proof.
  rewrite (gather_touches_only_artifacts archive_K2_invalid highres 2
             [Waiting "K2" "30/" true; Waiting "K3" "30/" true] with_K1
             (gather archive_K2_invalid highres 2
                [Waiting "K2" "30/" true; Waiting "K3" "30/" true] with_K1).1
             (gather archive_K2_invalid highres 2
                [Waiting "K2" "30/" true; Waiting "K3" "30/" true] with_K1).2).
  - vm_compute; reflexivity.
  - reflexivity.
  - intros e. vm_compute. discriminate.
  - vm_compute. intros H. apply elem_of_cons in H as [H | H]; [discriminate |].
    apply elem_of_cons in H as [H | H]; [discriminate |].
    by apply elem_of_nil in H.
Defined.

Lemma listing_with_blank_line :
  all_scans [line_81; blank] = LErr (Py IndexError)
  ∧ fetchScansFromFile archive_ready highres 1 [line_81; blank] fresh
    = (Unparsed (Py IndexError), fresh).
Proof.
  destruct (listing_line_without_comma [line_81; blank] blank) as (e & He & Hrun & _).
  - set_solver.
  - vm_compute; reflexivity.
  - assert (e = Py IndexError) as ->
      by (vm_compute in He; by injection He).
    split; [exact He | apply Hrun].
Defined.

Lemma listing_line_82 :
  all_scans [line_82; line_81] = LErr UnboundLocalError
  ∧ all_scans [line_81; line_82]
    = LOk [("81", "KLAC00161000001"); ("81", "KLAC00161000002");
           ("81", "KLAC00161000010"); ("82", "KLAC00161000055")].
Proof.
  destruct (listing_line_without_marker line_82) as (items & second & _ & _ & H & _).
  - vm_compute; reflexivity.
  - vm_compute; reflexivity.
  - split; [apply H | vm_compute; reflexivity].
Defined.

Lemma listing_line_81 :
  scan_line None line_81
  = LOk (Some "'KLAC001610000",
         [("81", "KLAC00161000001"); ("81", "KLAC00161000002");
          ("81", "KLAC00161000010")])
  ∧ PyStr.startswith "'KLAC001610000" "'KLAC00161000100'" = false.
Proof.
  destruct (listing_marker_line line_81 "'KLAC00161000" "'81'"
              ["['76'"; "'81'"]
              ["'KLAC00161000002'"; "'KLAC00161000010'";
               "'KLAC00161000100']" +:+ String "010" EmptyString]
              None) as (H1 & _ & H3).
  - vm_compute; reflexivity.
  - intros item Hitem. apply elem_of_cons in Hitem as [-> | Hitem]; [vm_compute; reflexivity |].
    apply elem_of_cons in Hitem as [-> | Hitem]; [vm_compute; reflexivity |].
    by apply elem_of_nil in Hitem.
  - reflexivity.
  - split; [rewrite H1; vm_compute; reflexivity |].
    apply (H3 "100'").
Defined.

Lemma listing_entry_81 :
  PyStr.contains (String QUOTE EmptyString) "81" = false
  ∧ PyStr.contains (String QUOTE EmptyString) "KLAC00161000002" = false.
Proof.
  destruct (all_scans_entries [line_81]
              [("81", "KLAC00161000001"); ("81", "KLAC00161000002");
               ("81", "KLAC00161000010")]
              "81" "KLAC00161000002") as (_ & H1 & H2).
  - vm_compute; reflexivity.
  - set_solver.
  - by split.
Defined.


Lemma listing_run_keeps_other_files :
  files (fetchScansFromFile archive_ready highres 1 [line_81] with_K1).2 !! "30/K1.pdf"
  = Some "old scan".
Proof.
  destruct (entry_points_touch_only_artifacts archive_ready highres 1 with_K1 "30/K1.pdf")
    as [_ H].
  rewrite (H [line_81]
             (fetchScansFromFile archive_ready highres 1 [line_81] with_K1).1
             (fetchScansFromFile archive_ready highres 1 [line_81] with_K1).2).
  - reflexivity.
  - vm_compute; reflexivity.
  - intros e. vm_compute. discriminate.
  - intros scans Hscans. vm_compute in Hscans. injection Hscans as <-.
    vm_compute. intros Hin.
    repeat (apply elem_of_cons in Hin as [Hin | Hin]; [discriminate |]).
    by apply elem_of_nil in Hin.
Defined.

End MoreConcrete.
